(** * figma-code-editor-widget: the snapshot pipeline, embedded and verified

    The development follows the two halves of the repository:

    - [iframe/src/ui.ts]: the editor side.  On every document change the
      update listener walks the document text and builds one token per
      character with its grid position, overlays the highlighter's spans,
      groups the tokens into runs and posts one [Message].
    - [widget/src/code.tsx]: the widget side.  It stores the last message
      (or a placeholder one), and renders each token with [getFill] and
      [ensureFontWeight].

    Conventions of the embedding.

    - A JavaScript string is a [string]: a sequence of code units, here the
      code units below 256.  [charAt] yields the one-character string
      [String c ""].
    - A JavaScript number that holds a count, an index or the result of
      [parseInt] is a [Z].  Counts and indices stay below 2^53, where
      doubles are exact; [parseInt] rounds a longer digit string to a
      double, which changes none of the tests made on its result here
      (a multiple of 100 between 0 and 1000).  A colour channel, the
      quotient of such an integer by 255, is kept as the exact rational.
    - An exception (a [TypeError] on a property access of [undefined])
      is the [None] of an [option].
    - The highlighter (CodeMirror's [highlightTree]) and the browser's
      [getComputedStyle] are outside the repository: the spans are an
      input of the pipeline and the computed style a section variable. *)

From Stdlib Require Import ZArith QArith Ascii String Lia List Sorted.
From Stdlib Require Import DecimalString DecimalNat.
From stdpp Require Import base list strings gmap.

Local Open Scope string_scope.
Local Open Scope list_scope.
Local Open Scope Z_scope.

(** ** Data model ([declaration/types.d.ts]) *)

Record Style := mkStyle { color : string; weight : string }.

(** [interface Token { i; x; y; text; style }].  The projections carry a
    prefix so that the loop variables [i], [x] and [y] keep their names. *)
Record Token := mkToken {
  tok_i : Z;
  tok_x : Z;
  tok_y : Z;
  tok_text : string;
  tok_style : Style
}.

(** [interface Message].  The declared type of [language] is [string];
    [placeholderTokens] takes it as an optional argument and tests it
    against [null], so the field is an [option] here: [None] stands for
    [undefined]/[null].  [msg_type] is the tag, declared as the literal
    ["text"] and tested at run time by the widget. *)
Record Message := mkMessage {
  msg_type : string;
  width : Z;
  height : Z;
  text : string;
  tokens : list Token;
  language : option string
}.

(** The line feed character and the one-character string ["\n"]. *)
Definition NL : ascii := "010"%char.
Definition LF : string := String NL "".

(** [text === "\n"] *)
Definition is_newline (s : string) : bool := String.eqb s LF.

(** ** The grid loop

    The same loop occurs twice in the sources, in the update listener of
    [ui.ts] (lines 189-211) and in [placeholderTokens] of [code.tsx]
    (lines 26-55); the two copies differ only in the style literal given
    to each pushed token, which is the parameter [cellStyle] here. *)

Record GridState := mkGrid {
  g_i : Z;
  g_x : Z;
  g_y : Z;
  g_width : Z;
  g_tokens : list Token
}.

Section Grid.
Variable cellStyle : Style.

(** One iteration of [for (let i = 0; i < s.length; i++)] on the
    character [c = s.charAt(i)]. *)
Definition grid_step (st : GridState) (c : ascii) : GridState :=
  let text := String c "" in
  let tokens :=
    g_tokens st ++ [mkToken (g_i st) (g_x st) (g_y st) text cellStyle] in
  if is_newline text then
    (* x = 0; y++ *)
    mkGrid (g_i st + 1) 0 (g_y st + 1) (g_width st) tokens
  else
    (* x++; if (x > width) width = x *)
    let x := g_x st + 1 in
    mkGrid (g_i st + 1) x (g_y st)
           (if g_width st <? x then x else g_width st) tokens.

Fixpoint grid_loop (s : string) (st : GridState) : GridState :=
  match s with
  | EmptyString => st
  | String c rest => grid_loop rest (grid_step st c)
  end.

(** [let x = 0; let y = 0; let width = 0; const tokens = []] *)
Definition grid_init : GridState := mkGrid 0 0 0 0 [].

Definition grid (s : string) : GridState := grid_loop s grid_init.

(** [const height = y + 1] *)
Definition grid_height (s : string) : Z := g_y (grid s) + 1.
End Grid.

(** ** The editor side ([iframe/src/ui.ts]) *)

Module Ui.

(** [const DEFAULT_STYLE: Style = { color: "", weight: "" }] *)
Definition DEFAULT_STYLE : Style := mkStyle "" "".

(** Lines 189-211: the tokens, [width] and [height] of the document. *)
Definition tokenize (docContents : string) : GridState :=
  grid DEFAULT_STYLE docContents.

(** *** Colouring the tokens (lines 132-160 and 213-218) *)

(** [tokens[i].style = style].  Reading [tokens[i]] outside the array
    gives [undefined], and setting a property of [undefined] throws. *)
Definition set_style (tokens : list Token) (i : Z) (style : Style)
  : option (list Token) :=
  if i <? 0 then None
  else match tokens !! Z.to_nat i with
       | Some t =>
           Some (<[Z.to_nat i :=
                     mkToken (tok_i t) (tok_x t) (tok_y t) (tok_text t) style]>
                   tokens)
       | None => None
       end.

Section Listener.
(** [getComputedStyle] of a fresh [div] carrying the class:
    its [color] and [fontWeight]. *)
Variable computed : string -> Style.

(** [getStyle(className)], with [STYLE_CACHE] passed explicitly.  On a
    miss the source stores the computed style and calls itself again;
    that second call is a hit and returns the stored style. *)
Definition getStyle (STYLE_CACHE : gmap string Style) (className : string)
  : Style * gmap string Style :=
  match STYLE_CACHE !! className with
  | Some style => (style, STYLE_CACHE)
  | None =>
      let style := computed className in
      (style, <[className := style]> STYLE_CACHE)
  end.

(** [for (let i = from; i < to; i++) tokens[i].style = getStyle(cls)]:
    [n] counts the iterations left, [Z.to_nat (to - from)] at entry.
    An exception ends the listener; no message is posted then. *)
Fixpoint color_range (n : nat) (i : Z) (classes : string)
         (tokens : list Token) (STYLE_CACHE : gmap string Style)
  : option (list Token * gmap string Style) :=
  match n with
  | O => Some (tokens, STYLE_CACHE)
  | S n' =>
      let '(style, cache') := getStyle STYLE_CACHE classes in
      match set_style tokens i style with
      | Some tokens' => color_range n' (i + 1) classes tokens' cache'
      | None => None
      end
  end.

Definition color_span (highlight : Z * Z * string)
           (tokens : list Token) (STYLE_CACHE : gmap string Style)
  : option (list Token * gmap string Style) :=
  let '(from, to, classes) := highlight in
  color_range (Z.to_nat (to - from)) from classes tokens STYLE_CACHE.

(** [for (const highlight of highlighting) ...] *)
Fixpoint color_tokens (highlighting : list (Z * Z * string))
         (tokens : list Token) (STYLE_CACHE : gmap string Style)
  : option (list Token * gmap string Style) :=
  match highlighting with
  | [] => Some (tokens, STYLE_CACHE)
  | highlight :: rest =>
      match color_span highlight tokens STYLE_CACHE with
      | Some (tokens', cache') => color_tokens rest tokens' cache'
      | None => None
      end
  end.
End Listener.

(** *** Grouping the tokens (lines 220-268) *)

Record GroupState := mkGroup {
  newTokens : list Token;
  prevToken : option Token;
  currentRun : list Token
}.

(** [for (const token of currentRun) combinedTokenText += token.text] *)
Definition combine_text (run : list Token) : string :=
  fold_left (fun acc token => acc +:+ tok_text token) run "".

Definition flushTokens (st : GroupState) : GroupState :=
  match currentRun st with
  | [] => st
  | firstToken :: _ =>
      mkGroup (newTokens st ++
                 [mkToken (tok_i firstToken) (tok_x firstToken)
                          (tok_y firstToken) (combine_text (currentRun st))
                          (tok_style firstToken)])
              (prevToken st) []
  end.

(** [prev.style.color !== tok.style.color ||
     prev.style.weight !== tok.style.weight] *)
Definition style_differs (s1 s2 : Style) : bool :=
  negb (String.eqb (color s1) (color s2))
  || negb (String.eqb (weight s1) (weight s2)).

(** The body of [for (const token of tokens)]. *)
Definition group_step (st : GroupState) (token : Token) : GroupState :=
  let st1 :=
    if is_newline (tok_text token) then flushTokens st
    else
      let st' :=
        match prevToken st with
        | Some prev =>
            if style_differs (tok_style prev) (tok_style token)
            then flushTokens st else st
        | None => st
        end in
      mkGroup (newTokens st') (prevToken st') (currentRun st' ++ [token]) in
  mkGroup (newTokens st1) (Some token) (currentRun st1).

Definition groupTokens (tokens : list Token) : list Token :=
  newTokens (flushTokens (fold_left group_step tokens (mkGroup [] None []))).

(** *** The update listener (lines 166-288), on a change of the document

    [highlighting] is what [highlightTree] pushed; the result is the
    posted message with the cache left behind, or [None] when the span
    loop threw. *)
Definition updateListener (computed : string -> Style)
           (STYLE_CACHE : gmap string Style)
           (highlighting : list (Z * Z * string))
           (docContents languageName : string)
  : option (Message * gmap string Style) :=
  let st := tokenize docContents in
  match color_tokens computed highlighting (g_tokens st) STYLE_CACHE with
  | Some (tokens, cache') =>
      Some (mkMessage "text" (g_width st) (g_y st + 1) docContents
                      (groupTokens tokens) (Some languageName),
            cache')
  | None => None
  end.

(** *** The language registry (lines 30-96 and 301-314) *)

(** What a [package] thunk builds: one of CodeMirror's language
    supports.  They come from outside the repository; only which one is
    built matters here. *)
Inductive LanguageSupport :=
| javascript_jsx_typescript | html | cpp | markdown | xml | rust | sql | css
| csharp | python | php | json | java.

Record ILanguage := mkLanguage {
  name : string;
  package : LanguageSupport
}.

Definition LANGUAGES : list ILanguage :=
  [mkLanguage "JavaScript" javascript_jsx_typescript;
   mkLanguage "HTML" html;
   mkLanguage "C++" cpp;
   mkLanguage "Markdown" markdown;
   mkLanguage "XML" xml;
   mkLanguage "Rust" rust;
   mkLanguage "SQL" sql;
   mkLanguage "CSS" css;
   mkLanguage "C#" csharp;
   mkLanguage "Python" python;
   mkLanguage "PHP" php;
   mkLanguage "JSON" json;
   mkLanguage "Java" java].

(** [LANGUAGES.filter((x) => x.name === languageName)[0]]; [None] is
    [undefined]. *)
Definition findLanguage (languageName : string) : option ILanguage :=
  head (List.filter (fun x => String.eqb (name x) languageName) LANGUAGES).

(** Lines 92-96 at start-up and lines 305-307 on a change of the
    dropdown: the language support and the language name handed to
    [getExtensions].  Reading [.package] or [.name] of [undefined] throws. *)
Definition selectLanguage (languageName : string)
  : option (LanguageSupport * string) :=
  match findLanguage languageName with
  | Some languageObject => Some (package languageObject, name languageObject)
  | None => None
  end.

(** The values of the dropdown's options, in order (lines 110-115). *)
Definition dropdownOptions : list string := map name LANGUAGES.

End Ui.

(** ** JavaScript string primitives used by the widget *)

Module Js.

Definition code (c : ascii) : Z := Z.of_nat (nat_of_ascii c).

(** White space and line terminators below 256: TAB, LF, VT, FF, CR,
    SP and NBSP. *)
Definition is_space (c : ascii) : bool :=
  ((9 <=? code c) && (code c <=? 13)) || (code c =? 32) || (code c =? 160).

Fixpoint trimStart (s : string) : string :=
  match s with
  | EmptyString => EmptyString
  | String c rest => if is_space c then trimStart rest else s
  end.

Fixpoint trimEnd (s : string) : string :=
  match s with
  | EmptyString => EmptyString
  | String c rest =>
      match trimEnd rest with
      | EmptyString => if is_space c then EmptyString else String c ""
      | rest' => String c rest'
      end
  end.

Definition trim (s : string) : string := trimEnd (trimStart s).

(** Lower-casing of the code units below 256: A-Z, and the accented
    capitals 192-222 except the multiplication sign 215. *)
Definition lower (c : ascii) : ascii :=
  let n := code c in
  if ((65 <=? n) && (n <=? 90))
     || ((192 <=? n) && (n <=? 222) && negb (n =? 215))
  then ascii_of_nat (Z.to_nat (n + 32)) else c.

Fixpoint toLowerCase (s : string) : string :=
  match s with
  | EmptyString => EmptyString
  | String c rest => String (lower c) (toLowerCase rest)
  end.

Definition startsWith (s p : string) : bool := String.prefix p s.

Definition is_digit (c : ascii) : bool := (48 <=? code c) && (code c <=? 57).

(** The value of a digit in radix [R], if it is one. *)
Definition digit_value (R : Z) (c : ascii) : option Z :=
  let n := code c in
  let v := if is_digit c then Some (n - 48)
           else if (97 <=? n) && (n <=? 122) then Some (n - 87)
           else if (65 <=? n) && (n <=? 90) then Some (n - 55)
           else None in
  match v with
  | Some d => if d <? R then Some d else None
  | None => None
  end.

(** The longest prefix of radix-[R] digits, read as a number; [acc] is
    [None] until a digit has been read. *)
Fixpoint parse_digits (R : Z) (s : string) (acc : option Z) : option Z :=
  match s with
  | EmptyString => acc
  | String c rest =>
      match digit_value R c with
      | Some d =>
          parse_digits R rest
            (Some (R * (match acc with Some n => n | None => 0 end) + d))
      | None => acc
      end
  end.

(** A leading [-] or [+] is read as the sign and removed. *)
Definition strip_sign (s : string) : Z * string :=
  match s with
  | String "-" rest => (-1, rest)
  | String "+" rest => (1, rest)
  | _ => (1, s)
  end.

(** A leading [0x] or [0X] selects radix 16 and is removed. *)
Definition strip_prefix (s : string) : Z * string :=
  match s with
  | String "0" (String "x" rest) => (16, rest)
  | String "0" (String "X" rest) => (16, rest)
  | _ => (10, s)
  end.

(** [parseInt(s)] without a radix (ECMA-262, 19.2.5): skip leading white
    space, read a sign, read a [0x]/[0X] prefix, read the digits; [None]
    is [NaN]. *)
Definition parseInt (s : string) : option Z :=
  let '(sign, s2) := strip_sign (trimStart s) in
  let '(R, s3) := strip_prefix s2 in
  match parse_digits R s3 None with
  | Some n => Some (sign * n)
  | None => None
  end.

(** [s.split(/[^0-9]+/)]: the pieces between the maximal runs of
    non-digits.  [piece] is the piece being read and [inSeparator] tells
    that the previous character belonged to a separator. *)
Fixpoint split_non_digits (s : string) (piece : string) (inSeparator : bool)
  : list string :=
  match s with
  | EmptyString => [piece]
  | String c rest =>
      if is_digit c then split_non_digits rest (piece +:+ String c "") false
      else if inSeparator then split_non_digits rest piece true
      else piece :: split_non_digits rest "" true
  end.

Definition split (s : string) : list string := split_non_digits s "" false.

(** The decimal digits of a natural number. *)
Definition digits (n : Z) : string :=
  NilZero.string_of_uint (Nat.to_uint (Z.to_nat n)).

(** [`${n}`] for a number that holds an integer (below 10^21 in absolute
    value) or is [NaN]. *)
Definition numberToString (n : option Z) : string :=
  match n with
  | None => "NaN"
  | Some k => if k <? 0 then String "-" (digits (- k)) else digits k
  end.

End Js.

(** ** The widget side ([widget/src/code.tsx]) *)

Module Widget.

Definition PLACEHOLDER : string := "rgb(128, 128, 128)".
Definition PLACEHOLDER_TEXT : string := "Type code...".

Definition placeholderStyle : Style := mkStyle PLACEHOLDER "normal".

(** [placeholderTokens(placeholderText, language?)]: the grid loop with
    the placeholder style; the per-character tokens are returned as
    they are. *)
Definition placeholderTokens (placeholderText : string)
           (language : option string) : Message :=
  let st := grid placeholderStyle placeholderText in
  mkMessage "text" (g_width st) (g_y st + 1) placeholderText (g_tokens st)
            (Some (match language with
                   | None => "JavaScript"
                   | Some l => l
                   end)).

(** The return type of [ensureFontWeight]: one of the numbers 100..900
    or one of the nine keywords. *)
Inductive FontWeight :=
| WeightNumber (n : Z)
| WeightName (name : string).

(** [weightInt % 100 === 0 && weightInt > 0 && weightInt < 1000];
    every comparison with [NaN] is false. *)
Definition is_hundreds (weightInt : option Z) : bool :=
  match weightInt with
  | Some n => (Z.rem n 100 =? 0) && (0 <? n) && (n <? 1000)
  | None => false
  end.

Definition ensureFontWeight (weight : string) : FontWeight :=
  if (Z.of_nat (String.length (Js.trim weight)) =? 0) then WeightName "normal"
  else
    let weightInt := Js.parseInt weight in
    if is_hundreds weightInt then
      WeightNumber (match weightInt with Some n => n | None => 0 end)
    else
      let normalizedWeight := Js.trim (Js.toLowerCase weight) in
      if String.eqb normalizedWeight "thin" then WeightName "thin"
      else if String.eqb normalizedWeight "extra-light"
      then WeightName "extra-light"
      else if String.eqb normalizedWeight "light" then WeightName "light"
      else if String.eqb normalizedWeight "normal" then WeightName "normal"
      else if String.eqb normalizedWeight "medium" then WeightName "medium"
      else if String.eqb normalizedWeight "semi-bold"
      then WeightName "semi-bold"
      else if String.eqb normalizedWeight "bold" then WeightName "bold"
      else if String.eqb normalizedWeight "extra-bold"
      then WeightName "extra-bold"
      else if String.eqb normalizedWeight "black" then WeightName "black"
      else WeightName "normal".

(** [interface Color { r; g; b; a }]; a channel is a rational, or
    [None] for [NaN].  The projections carry a prefix, as those of
    [Token] do. *)
Record Color := mkColor {
  c_r : option Q;
  c_g : option Q;
  c_b : option Q;
  c_a : option Q
}.

Definition defaultColor : Color :=
  mkColor (Some 0%Q) (Some 0%Q) (Some 0%Q) (Some 1%Q).

(** [n / 255] *)
Definition over255 (n : option Z) : option Q :=
  match n with
  | Some k => Some (k # 255)%Q
  | None => None
  end.

(** [style.split(/[^0-9]+/).filter((x) => x.trim().length > 0)
          .map((x) => parseInt(x))] *)
Definition numbers (style : string) : list (option Z) :=
  map Js.parseInt
      (List.filter (fun x => 0 <? Z.of_nat (String.length (Js.trim x)))
                   (Js.split style)).

(** How a block ends: with a value, or with an exception. *)
Inductive Completion (A : Type) :=
| Return (v : A)
| Throw.
Arguments Return {A} v.
Arguments Throw {A}.

(** The [try] block of [getFill]. *)
Definition getFill_try (style : string) : Completion Color :=
  if Js.startsWith style "rgb" then
    match numbers style with
    | n0 :: n1 :: n2 :: more =>
        Return (mkColor (over255 n0) (over255 n1) (over255 n2)
                        (match more with
                         | n3 :: _ => match n3 with
                                      | Some k => Some (inject_Z k)
                                      | None => None
                                      end
                         | [] => Some 1%Q
                         end))
    | _ => Return defaultColor
    end
  else Return defaultColor.

(** [try { ... } catch (e) { return defaultColor; }] *)
Definition getFill (style : string) : Color :=
  match getFill_try style with
  | Return c => c
  | Throw => defaultColor
  end.

(** [figma.ui.onmessage]: the next value of the synced state
    [tokens], from its current value and the incoming message. *)
Definition onmessage (state : Message) (msg : Message) : Message :=
  if String.eqb (msg_type msg) "text" then
    if String.eqb (text msg) "" then
      placeholderTokens PLACEHOLDER_TEXT (language msg)
    else msg
  else state.

(** *** Rendering (lines 7-12 and 157-198) *)

Definition LETTER_WIDTH : Z := 15.
Definition LETTER_HEIGHT : Z := 30.
Definition FONT_SIZE : Z := 24.
Definition FONT_FAMILY : string := "Source Code Pro".

(** A [<Text>] child.  [key] is [JSON.stringify(token)], which tells two
    tokens apart exactly when they differ; it is kept as the token. *)
Record TextNode := mkText {
  fontFamily : string;
  fontSize : Z;
  node_x : Z;
  node_y : Z;
  fill : Color;
  fontWeight : FontWeight;
  key : Token;
  characters : string
}.

Record FrameNode := mkFrame {
  frame_width : Z;
  frame_height : Z;
  children : list TextNode
}.

(** What [Widget()] returns for the synced state [tokens]. *)
Definition render (state : Message) : FrameNode :=
  mkFrame (width state * LETTER_WIDTH) (height state * LETTER_HEIGHT)
          (map (fun token =>
                  mkText FONT_FAMILY FONT_SIZE
                         (tok_x token * LETTER_WIDTH)
                         (tok_y token * LETTER_HEIGHT)
                         (getFill (color (tok_style token)))
                         (ensureFontWeight (weight (tok_style token)))
                         token (tok_text token))
               (tokens state)).

End Widget.

(** ** The second version of the widget ([widget/src/code.tsx], lines 202-495)

    Its [placeholderTokens], [ensureFontWeight], [getFill] and message
    handler are those of the first version, character for character.
    It adds a colour mode, a font size and a frame, chosen in a property
    menu.  The letter sizes derived from the font size are quotients of
    doubles and are left out. *)

Module Widget2.

Definition SIZES : list Z :=
  [10; 12; 14; 16; 18; 20; 24; 32; 36; 40; 48; 64; 96; 128].



(** The three synced states behind the menu; [FONT_SIZE] is a number and
    may be [NaN]. *)
Record Settings := mkSettings {
  FONT_SIZE : option Z;
  colorMode : string;
  includeFrame : bool
}.

(** [useSyncedState("fontSize", 24)], [("colorMode", "light")],
    [("includeFrame", true)] *)
Definition initialSettings : Settings := mkSettings (Some 24) "light" true.

(** [`${b}`] for a boolean. *)
Definition booleanToString (b : bool) : string :=
  if b then "true" else "false".

(** A dropdown of the property menu: its property, the option shown as
    selected and the [option] values offered (labels and tooltips are
    left out). *)
Record MenuItem := mkItem {
  propertyName : string;
  selectedOption : string;
  options : list string
}.

Definition propertyMenu (st : Settings) : list MenuItem :=
  [mkItem "includeFrame" (booleanToString (includeFrame st)) ["true"; "false"];
   mkItem "colorMode" (colorMode st) ["light"; "dark"];
   mkItem "fontSize" (Js.numberToString (FONT_SIZE st))
          (map (fun size => Js.numberToString (Some size)) SIZES)].

(** The callback of [usePropertyMenu] on the event
    [{ propertyName, propertyValue }]. *)
Definition onPropertyChange (st : Settings) (propertyName propertyValue : string)
  : Settings :=
  let st1 :=
    if String.eqb propertyName "includeFrame"
    then mkSettings (FONT_SIZE st) (colorMode st)
                    (String.eqb propertyValue "true")
    else st in
  let st2 :=
    if String.eqb propertyName "colorMode"
    then mkSettings (FONT_SIZE st1) propertyValue (includeFrame st1)
    else st1 in
  if String.eqb propertyName "fontSize"
  then mkSettings (Js.parseInt propertyValue) (colorMode st2) (includeFrame st2)
  else st2.

(** [const BACKGROUND = colorMode === "light" ? "#FFFFFF" : "#343434"] *)
Definition BACKGROUND (st : Settings) : string :=
  if String.eqb (colorMode st) "light" then "#FFFFFF" else "#343434".

End Widget2.

(** ** Reference definitions, written from the specification

    These are what the specification's sentences say, independently of
    the loops above; the theorems compare the two. *)

Module Spec.

(** The number of ['\n'] characters of a string. *)
Fixpoint count_newlines (s : string) : nat :=
  match s with
  | EmptyString => O
  | String c rest =>
      if Ascii.eqb c NL then S (count_newlines rest) else count_newlines rest
  end.

(** The rows of a string: the pieces between its ['\n'] characters. *)
Fixpoint rows (s : string) : list string :=
  match s with
  | EmptyString => [""]
  | String c rest =>
      if Ascii.eqb c NL then "" :: rows rest
      else match rows rest with
           | row :: more => String c row :: more
           | [] => [String c ""]
           end
  end.

(** The maximum over the rows of the number of characters in the row. *)
Definition max_row_length (s : string) : nat :=
  max_list (String.length <$> rows s).

(** A run [r] covers the cell [c] when the cell lies on the run's row,
    within the run's text length from the run's column. *)
Definition covers (r c : Token) : bool :=
  (tok_y c =? tok_y r) && (tok_x r <=? tok_x c)
  && (tok_x c <? tok_x r + Z.of_nat (String.length (tok_text r))).

(** Replaying one run: the cells it covers take its style. *)
Definition replay_run (cells : list Token) (r : Token) : list Token :=
  map (fun c => if covers r c
                then mkToken (tok_i c) (tok_x c) (tok_y c) (tok_text c)
                             (tok_style r)
                else c) cells.

(** Re-running the grid tokenizer on a snapshot's [text] and replaying
    the snapshot's runs by position, in order. *)
Definition replay (m : Message) : list Token :=
  fold_left replay_run (tokens m) (g_tokens (Ui.tokenize (text m))).

(** The placeholder as section 4.6 describes it: grid tokenizer, the
    muted style on every cell, then the run coalescer. *)
Definition placeholder (placeholderText : string) (language : option string)
  : Message :=
  let st := grid Widget.placeholderStyle placeholderText in
  mkMessage "text" (g_width st) (g_y st + 1) placeholderText
            (Ui.groupTokens (g_tokens st))
            (Some (match language with
                   | None => "JavaScript"
                   | Some l => l
                   end)).

(** The weight keywords of section 6. *)
Definition keywords : list string :=
  ["thin"; "extra-light"; "light"; "normal"; "medium"; "semi-bold"; "bold";
   "extra-bold"; "black"].

Fixpoint all_digits (s : string) : bool :=
  match s with
  | EmptyString => true
  | String c rest => Js.is_digit c && all_digits rest
  end.

Fixpoint all_spaces (s : string) : bool :=
  match s with
  | EmptyString => true
  | String c rest => Js.is_space c && all_spaces rest
  end.

(** The decimal value of a string of digits. *)
Definition decimal (s : string) : Z :=
  fold_left (fun acc c => 10 * acc + (Js.code c - 48))
            (list_ascii_of_string s) 0.

(** A multiple-of-100 integer string in [100, 900]. *)
Definition hundreds_string (s : string) : bool :=
  negb (String.eqb s "") && all_digits s
  && (100 <=? decimal s) && (decimal s <=? 900)
  && (decimal s mod 100 =? 0).

(** Weight normalisation as section 6 words it: empty (or white space)
    gives "normal", a multiple-of-100 integer string gives the integer,
    a keyword gives itself, any other value gives "normal". *)
Definition normalize_weight (w : string) : Widget.FontWeight :=
  if all_spaces w then Widget.WeightName "normal"
  else if hundreds_string w then Widget.WeightNumber (decimal w)
  else if bool_decide (w ∈ keywords) then Widget.WeightName w
  else Widget.WeightName "normal".

End Spec.

(** ** Vocabulary of the statements and auxiliary definitions of the proofs *)

(** The width reached from column [x]: the row being read counts from
    [x], every later row from 0. *)
Fixpoint reach (x : Z) (s : string) : Z :=
  match s with
  | EmptyString => x
  | String c rest =>
      if Ascii.eqb c NL then Z.max x (reach 0 rest) else reach (x + 1) rest
  end.

(** The cells the grid loop pushes for [s] when it starts at index [i],
    column [x] and row [y]. *)
Fixpoint cells_from (cellStyle : Style) (s : string) (i x y : Z) : list Token :=
  match s with
  | EmptyString => []
  | String c rest =>
      mkToken i x y (String c "") cellStyle ::
      (if Ascii.eqb c NL then cells_from cellStyle rest (i + 1) 0 (y + 1)
       else cells_from cellStyle rest (i + 1) (x + 1) y)
  end.

(** What identifies a cell: everything but its style. *)
Definition cell (t : Token) : Z * Z * Z * string :=
  (tok_i t, tok_x t, tok_y t, tok_text t).

Definition restyle (style : Style) (t : Token) : Token :=
  mkToken (tok_i t) (tok_x t) (tok_y t) (tok_text t) style.

Definition cell_newline (t : Token) : bool := is_newline (tok_text t).

(** [b] is the cell that the grid loop pushes right after [a]. *)
Definition follows (a b : Token) : Prop :=
  tok_i b = tok_i a + 1
  /\ (if cell_newline a then tok_x b = 0 /\ tok_y b = tok_y a + 1
      else tok_x b = tok_x a + 1 /\ tok_y b = tok_y a).

Fixpoint chain (l : list Token) : Prop :=
  match l with
  | a :: rest =>
      match rest with
      | b :: _ => follows a b
      | [] => True
      end /\ chain rest
  | [] => True
  end.

(** A cell holds one character and sits at a column that is not negative. *)
Definition one_char (t : Token) : Prop :=
  0 <= tok_x t /\ exists c, tok_text t = String c "".

(** Row-major order of grid positions. *)
Definition before (a b : Token) : Prop :=
  tok_y a < tok_y b \/ (tok_y a = tok_y b /\ tok_x a < tok_x b).

(** The runs of the grouping loop as blocks of cells: [cur] is the run
    being collected and [ts] the cells still to read. *)
Definition close (cur : list Token) : list (list Token) :=
  match cur with
  | [] => []
  | _ :: _ => [cur]
  end.

Fixpoint blocks (cur : list Token) (ts : list Token) : list (list Token) :=
  match ts with
  | [] => close cur
  | t :: rest =>
      if cell_newline t then close cur ++ blocks [] rest
      else match last cur with
           | Some p =>
               if Ui.style_differs (tok_style p) (tok_style t)
               then cur :: blocks [t] rest
               else blocks (cur ++ [t]) rest
           | None => blocks [t] rest
           end
  end.

(** The run that [flushTokens] pushes for a block. *)
Definition run_of (block : list Token) : Token :=
  match block with
  | [] => mkToken 0 0 0 "" Ui.DEFAULT_STYLE
  | firstToken :: _ =>
      mkToken (tok_i firstToken) (tok_x firstToken) (tok_y firstToken)
              (Ui.combine_text block) (tok_style firstToken)
  end.

(** The style a cell ends with when the runs are replayed over it. *)
Definition replay_cell (runs : list Token) (c : Token) : Token :=
  fold_left (fun c r => if Spec.covers r c then restyle (tok_style r) c else c)
            runs c.

(** All the cells of a list carry the same style. *)
Definition same_style (l : list Token) : Prop :=
  forall a b, a ∈ l -> b ∈ l -> tok_style a = tok_style b.

Definition no_newline (l : list Token) : Prop :=
  Forall (fun t => cell_newline t = false) l.

(** The run [r] was flushed from a segment of [cells]: its index, row,
    column and style are those of the segment's first cell and its text
    is the segment's characters. *)
Definition run_from (cells : list Token) (r : Token) : Prop :=
  exists first rest pre post,
    cells = pre ++ (first :: rest) ++ post
    /\ tok_i r = tok_i first /\ tok_x r = tok_x first
    /\ tok_y r = tok_y first /\ tok_style r = tok_style first
    /\ tok_text r = Ui.combine_text (first :: rest).

(** The invariants of a snapshot whose runs were made from [cells]. *)
Definition snapshot_ok (cells : list Token) (m : Message) : Prop :=
  0 <= width m /\ 1 <= height m /\ (width m = 0 -> tokens m = [])
  /\ Forall (fun r => (1 <= String.length (tok_text r))%nat
                      /\ ~ In NL (list_ascii_of_string (tok_text r))
                      /\ run_from cells r) (tokens m).

(** Two blocks that follow each other either lie on different rows, or
    the second starts where the first ends, with another style. *)
Definition split_by_style (B1 B2 : list Token) : Prop :=
  tok_y (run_of B1) = tok_y (run_of B2) ->
  tok_style (run_of B1) <> tok_style (run_of B2)
  /\ tok_i (run_of B2) = tok_i (run_of B1) + Z.of_nat (length B1)
  /\ tok_x (run_of B2) = tok_x (run_of B1) + Z.of_nat (length B1).

(** ** Vocabulary of the further properties *)

(** The style [getStyle] gives a label under a cache: the cached style,
    or the computed one on a miss. *)
Definition resolve (computed : string -> Style) (cache : gmap string Style)
           (label : string) : Style :=
  match cache !! label with
  | Some style => style
  | None => computed label
  end.

(** The label of the last span of [highlighting] that contains the
    offset [k], if any. *)
Fixpoint last_label (highlighting : list (Z * Z * string)) (k : Z)
  : option string :=
  match highlighting with
  | [] => None
  | (from, to, classes) :: rest =>
      match last_label rest k with
      | Some label => Some label
      | None => if (from <=? k) && (k <? to) then Some classes else None
      end
  end.

(** A span is in bounds for [n] cells when it is empty or lies within
    [0 .. n]. *)
Definition span_ok (n : nat) (h : Z * Z * string) : Prop :=
  h.1.1 < h.1.2 -> 0 <= h.1.1 /\ h.1.2 <= Z.of_nat n.

(** A string without its newline characters. *)
Fixpoint without_newlines (s : string) : string :=
  match s with
  | EmptyString => EmptyString
  | String c rest =>
      if Ascii.eqb c NL then without_newlines rest
      else String c (without_newlines rest)
  end.

(** One run per non-empty row: the row's text at column 0, with the
    index of the row's first character; [i] and [y] are the index and
    the number of the first row. *)
Fixpoint line_runs (style : Style) (rows : list string) (i y : Z)
  : list Token :=
  match rows with
  | [] => []
  | row :: more =>
      (if String.eqb row "" then [] else [mkToken i 0 y row style])
      ++ line_runs style more (i + Z.of_nat (String.length row) + 1) (y + 1)
  end.

(** The run [r1] ends before the run [r2] starts, in document order. *)
Definition run_before (r1 r2 : Token) : Prop :=
  tok_i r1 + Z.of_nat (String.length (tok_text r1)) <= tok_i r2.

(** The run [r] lies inside a grid of [w] columns and [h] rows. *)
Definition fits (w h : Z) (r : Token) : Prop :=
  0 <= tok_x r /\ tok_x r + Z.of_nat (String.length (tok_text r)) <= w
  /\ 0 <= tok_y r < h.


(** A channel that is a number between 0 and 1. *)
Definition unit_channel (x : option Q) : Prop :=
  exists q, x = Some q /\ (0 <= q)%Q /\ (q <= 1)%Q.

(** * Properties *)

(** ** The grid tokenizer *)

Section GridFacts.
Variable cellStyle : Style.

Lemma is_newline_char (c : ascii) :
  is_newline (String c "") = Ascii.eqb c NL.
Proof.
  unfold is_newline, LF. simpl.
  destruct (Ascii.eqb c NL); reflexivity.
Qed.

Lemma grid_step_tokens st c :
  g_tokens (grid_step cellStyle st c) =
  g_tokens st ++ [mkToken (g_i st) (g_x st) (g_y st) (String c "") cellStyle].
Proof. unfold grid_step. destruct (is_newline _); reflexivity. Qed.

(** The height counts the newlines. *)
Lemma grid_loop_y s st :
  g_y (grid_loop cellStyle s st) = g_y st + Z.of_nat (Spec.count_newlines s).
Proof.
  revert st. induction s as [|c s IH]; intros st; simpl.
  - lia.
  - rewrite IH. unfold grid_step. rewrite is_newline_char.
    destruct (Ascii.eqb c NL); simpl; lia.
Qed.

Lemma grid_loop_length s st :
  length (g_tokens (grid_loop cellStyle s st)) =
  (length (g_tokens st) + String.length s)%nat.
Proof.
  revert st. induction s as [|c s IH]; intros st; simpl.
  - lia.
  - rewrite IH, grid_step_tokens, length_app. simpl. lia.
Qed.

Lemma reach_ge x s : x <= reach x s.
Proof.
  revert x. induction s as [|c s IH]; intros x; simpl; [lia|].
  destruct (Ascii.eqb c NL); [lia|]. specialize (IH (x + 1)). lia.
Qed.

Lemma grid_loop_width s st :
  0 <= g_x st <= g_width st ->
  g_width (grid_loop cellStyle s st) = Z.max (g_width st) (reach (g_x st) s).
Proof.
  revert st. induction s as [|c s IH]; intros st Hx; simpl.
  - lia.
  - unfold grid_step. rewrite is_newline_char.
    destruct (Ascii.eqb c NL).
    + rewrite IH; simpl.
      * pose proof (reach_ge 0 s). lia.
      * pose proof (reach_ge 0 s). lia.
    + rewrite IH; simpl.
      * pose proof (reach_ge (g_x st + 1) s).
        destruct (Z.ltb_spec (g_width st) (g_x st + 1)); lia.
      * destruct (Z.ltb_spec (g_width st) (g_x st + 1)); lia.
Qed.

Lemma rows_nonempty s : Spec.rows s <> [].
Proof.
  destruct s as [|c s]; simpl; [discriminate|].
  destruct (Ascii.eqb c NL); [discriminate|].
  destruct (Spec.rows s); discriminate.
Qed.

Lemma reach_rows x s :
  0 <= x ->
  reach x s =
  match Spec.rows s with
  | row :: more =>
      Z.max (x + Z.of_nat (String.length row))
            (Z.of_nat (max_list (String.length <$> more)))
  | [] => x
  end.
Proof.
  revert x. induction s as [|c s IH]; intros x Hx; simpl.
  - lia.
  - pose proof (rows_nonempty s) as Hne.
    destruct (Ascii.eqb c NL).
    + rewrite (IH 0) by lia.
      destruct (Spec.rows s) as [|row more]; [congruence|].
      rewrite fmap_cons. cbn [max_list String.length]. unfold id. lia.
    + rewrite (IH (x + 1)) by lia.
      destruct (Spec.rows s) as [|row more]; [congruence|].
      cbn [String.length]. lia.
Qed.

Lemma grid_width_rows s :
  g_width (grid cellStyle s) = Z.of_nat (Spec.max_row_length s).
Proof.
  unfold grid. rewrite grid_loop_width by (simpl; lia). simpl.
  rewrite reach_rows by lia. unfold Spec.max_row_length.
  pose proof (rows_nonempty s) as Hne.
  destruct (Spec.rows s) as [|row more]; [congruence|].
  rewrite fmap_cons. cbn [max_list]. unfold id. lia.
Qed.
End GridFacts.

(** C2.  For every string [S] and either copy of the grid loop (every
    [cellStyle]): the height is the number of newline characters plus
    one, the width is the maximum over the rows of the row's number of
    characters, and there is one cell per character; the empty string
    gives width 0, height 1 and no cell; a step on a newline leaves the
    width tracker as it is, resets the column and advances the row; a
    step on any other character pushes the cell at the current row and
    column, increments the column and sets the width to the maximum of
    the old width and the new column. *)
Theorem grid_tokenizer_width_height (cellStyle : Style) (S : string) :
  grid_height cellStyle S = Z.of_nat (Spec.count_newlines S) + 1
  /\ g_width (grid cellStyle S) = Z.of_nat (Spec.max_row_length S)
  /\ length (g_tokens (grid cellStyle S)) = String.length S
  /\ (g_width (grid cellStyle "") = 0 /\ grid_height cellStyle "" = 1
      /\ g_tokens (grid cellStyle "") = [])
  /\ (forall st,
        let st' := grid_step cellStyle st NL in
        g_width st' = g_width st /\ g_x st' = 0 /\ g_y st' = g_y st + 1)
  /\ (forall st c, c <> NL ->
        let st' := grid_step cellStyle st c in
        g_tokens st' =
          g_tokens st ++
            [mkToken (g_i st) (g_x st) (g_y st) (String c "") cellStyle]
        /\ g_x st' = g_x st + 1 /\ g_y st' = g_y st
        /\ g_width st' = Z.max (g_width st) (g_x st'))
  /\ width (Widget.placeholderTokens S None) =
       g_width (Ui.tokenize S)
  /\ height (Widget.placeholderTokens S None) =
       grid_height Ui.DEFAULT_STYLE S.
Proof.
  split; [|split; [|split; [|split; [|split; [|split; [|split]]]]]].
  - unfold grid_height, grid. rewrite grid_loop_y. simpl. lia.
  - apply grid_width_rows.
  - unfold grid. rewrite grid_loop_length. simpl. lia.
  - repeat split; reflexivity.
  - intros st st'. subst st'. unfold grid_step. rewrite is_newline_char.
    rewrite Ascii.eqb_refl. repeat split; reflexivity.
  - intros st c Hc st'. subst st'. unfold grid_step.
    rewrite is_newline_char.
    destruct (Ascii.eqb_spec c NL); [contradiction|]. simpl.
    repeat split; try reflexivity.
    destruct (Z.ltb_spec (g_width st) (g_x st + 1)); lia.
  - simpl. unfold Ui.tokenize. rewrite !grid_width_rows. reflexivity.
  - simpl. unfold grid_height, grid. rewrite !grid_loop_y. reflexivity.
Qed.

Lemma grid_tokenizer_width_height_witness :
  let st' := grid_step Ui.DEFAULT_STYLE (grid_init) "a" in
  g_tokens st' =
    g_tokens grid_init ++ [mkToken 0 0 0 "a" Ui.DEFAULT_STYLE]
  /\ g_x st' = g_x grid_init + 1 /\ g_y st' = g_y grid_init
  /\ g_width st' = Z.max (g_width grid_init) (g_x st').
Proof.
  apply (proj1 (proj2 (proj2 (proj2 (proj2 (proj2
           (grid_tokenizer_width_height Ui.DEFAULT_STYLE "ab"))))))
           grid_init "a"%char).
  discriminate.
Defined.

(** ** The sync bridge *)

(** C3.  For every incoming message [msg] tagged "text" and every stored
    state: when [msg.text] is the empty string the new state is
    [placeholderTokens("Type code...", msg.language)], whose language is
    [msg.language], or "JavaScript" when [msg.language] is absent; in
    every other case the new state is [msg] itself.  The previous state
    plays no part. *)
Theorem sync_bridge_apply (state msg : Message) :
  msg_type msg = "text" ->
  (text msg = "" ->
     Widget.onmessage state msg =
       Widget.placeholderTokens "Type code..." (language msg)
     /\ language (Widget.onmessage state msg) =
          Some (match language msg with Some l => l | None => "JavaScript" end)
     /\ (language msg = None ->
         Widget.onmessage state msg =
           Widget.placeholderTokens "Type code..." (Some "JavaScript")))
  /\ (text msg <> "" -> Widget.onmessage state msg = msg).
Proof.
  intros Htype. unfold Widget.onmessage. rewrite Htype. simpl.
  split.
  - intros Htext. rewrite Htext. simpl. repeat split.
    intros Hlang. rewrite Hlang. reflexivity.
  - intros Htext. destruct (String.eqb_spec (text msg) ""); congruence.
Qed.

Lemma sync_bridge_apply_witness :
  Widget.onmessage (mkMessage "text" 1 1 "x" [] None)
                   (mkMessage "text" 0 1 "" [] (Some "Python")) =
    Widget.placeholderTokens "Type code..." (Some "Python")
  /\ Widget.onmessage (mkMessage "text" 1 1 "x" [] None)
                      (mkMessage "text" 7 7 "y" [] None) =
       mkMessage "text" 7 7 "y" [] None.
Proof.
  split.
  - apply (sync_bridge_apply (mkMessage "text" 1 1 "x" [] None)
                             (mkMessage "text" 0 1 "" [] (Some "Python")));
      reflexivity.
  - apply (sync_bridge_apply (mkMessage "text" 1 1 "x" [] None)
                             (mkMessage "text" 7 7 "y" [] None));
      [reflexivity | discriminate].
Defined.

(** ** Strings of digits *)

Lemma digit_not_space (c : ascii) : Js.is_digit c = true -> Js.is_space c = false.
Proof.
  unfold Js.is_digit, Js.is_space. intros H.
  apply andb_true_iff in H as [H1 H2].
  apply Z.leb_le in H1. apply Z.leb_le in H2.
  repeat match goal with
         | |- context [?a <=? ?b] => destruct (Z.leb_spec a b)
         | |- context [?a =? ?b] => destruct (Z.eqb_spec a b)
         end; simpl; try reflexivity; lia.
Qed.

Lemma digit_value_10 (c : ascii) :
  Js.is_digit c = true -> Js.digit_value 10 c = Some (Js.code c - 48).
Proof.
  intros H. unfold Js.digit_value. rewrite H.
  unfold Js.is_digit in H. apply andb_true_iff in H as [H1 H2].
  apply Z.leb_le in H1. apply Z.leb_le in H2.
  destruct (Z.ltb_spec (Js.code c - 48) 10); [reflexivity|lia].
Qed.

Lemma strip_sign_digit (c : ascii) (rest : string) :
  Js.is_digit c = true -> Js.strip_sign (String c rest) = (1, String c rest).
Proof.
  destruct c as [[] [] [] [] [] [] [] []]; intros H;
    try reflexivity; discriminate H.
Qed.

Lemma strip_prefix_digits (c : ascii) (rest : string) :
  Spec.all_digits rest = true ->
  Js.strip_prefix (String c rest) = (10, String c rest).
Proof.
  intros H. destruct rest as [|c2 rest]; simpl.
  - destruct c as [[] [] [] [] [] [] [] []]; reflexivity.
  - simpl in H. apply andb_true_iff in H as [H _].
    destruct c as [[] [] [] [] [] [] [] []]; try reflexivity;
      destruct c2 as [[] [] [] [] [] [] [] []]; try reflexivity;
      discriminate H.
Qed.

Lemma parse_digits_decimal (s : string) (n : Z) :
  Spec.all_digits s = true ->
  Js.parse_digits 10 s (Some n) =
  Some (fold_left (fun acc c => 10 * acc + (Js.code c - 48))
                  (list_ascii_of_string s) n).
Proof.
  revert n. induction s as [|c s IH]; intros n H; simpl.
  - reflexivity.
  - simpl in H. apply andb_true_iff in H as [Hc Hs].
    rewrite digit_value_10 by exact Hc. apply IH, Hs.
Qed.

(** On a non-empty string of decimal digits [parseInt] is the decimal
    value. *)
Lemma parseInt_digits (s : string) :
  s <> "" -> Spec.all_digits s = true -> Js.parseInt s = Some (Spec.decimal s).
Proof.
  intros Hne H. destruct s as [|c s]; [congruence|].
  simpl in H. apply andb_true_iff in H as [Hc Hs].
  unfold Js.parseInt. simpl Js.trimStart.
  rewrite digit_not_space by exact Hc.
  rewrite strip_sign_digit by exact Hc.
  rewrite strip_prefix_digits by exact Hs.
  simpl Js.parse_digits. rewrite digit_value_10 by exact Hc.
  rewrite parse_digits_decimal by exact Hs.
  unfold Spec.decimal. simpl.
  destruct (fold_left _ _ _); reflexivity.
Qed.

Lemma all_digits_app (s1 s2 : string) :
  Spec.all_digits s1 = true -> Spec.all_digits s2 = true ->
  Spec.all_digits (s1 +:+ s2) = true.
Proof.
  intros H1 H2. induction s1 as [|c s1 IH]; simpl in *; [exact H2|].
  apply andb_true_iff in H1 as [Hc H1]. rewrite Hc. simpl. auto.
Qed.

(** Every piece of [split] is a (possibly empty) string of digits. *)
Lemma split_non_digits_digits (s piece : string) (inSeparator : bool) :
  Spec.all_digits piece = true ->
  Forall (fun x => Spec.all_digits x = true)
         (Js.split_non_digits s piece inSeparator).
Proof.
  revert piece inSeparator.
  induction s as [|c s IH]; intros piece inSeparator Hp; simpl.
  - constructor; [exact Hp|constructor].
  - destruct (Js.is_digit c) eqn:Hc.
    + apply IH. apply all_digits_app; [exact Hp|]. simpl. rewrite Hc. reflexivity.
    + destruct inSeparator.
      * apply IH, Hp.
      * constructor; [exact Hp|]. apply IH. reflexivity.
Qed.

(** The components [getFill] reads are numbers, never [NaN]. *)
Lemma numbers_defined (style : string) :
  Forall (fun n => exists k, n = Some k) (Widget.numbers style).
Proof.
  unfold Widget.numbers. apply List.Forall_forall. intros n Hn.
  apply in_map_iff in Hn as [x [Hx Hin]].
  apply filter_In in Hin as [Hin Hlen].
  pose proof (split_non_digits_digits style "" false eq_refl) as Hall.
  rewrite List.Forall_forall in Hall. specialize (Hall x Hin).
  exists (Spec.decimal x). rewrite <- Hx. apply parseInt_digits; [|exact Hall].
  intros ->. discriminate Hlen.
Qed.

(** ** Rendering: colours *)

(** C7.  [getFill] falls back to opaque black ([r = g = b = 0], [a = 1])
    for every string that does not start with "rgb" and for every string
    with fewer than three numeric components; and its [try] block ends
    normally on every string, so nothing is raised to the caller. *)
Theorem getFill_fallback (style : string) :
  (exists c, Widget.getFill_try style = Widget.Return c /\ Widget.getFill style = c)
  /\ (Js.startsWith style "rgb" = false \/
      (length (Widget.numbers style) < 3)%nat ->
      Widget.getFill style =
        Widget.mkColor (Some 0%Q) (Some 0%Q) (Some 0%Q) (Some 1%Q)).
Proof.
  unfold Widget.getFill, Widget.getFill_try. split.
  - destruct (Js.startsWith style "rgb"); [|eexists; split; reflexivity].
    destruct (Widget.numbers style) as [|n0 [|n1 [|n2 more]]];
      eexists; split; reflexivity.
  - intros [H|H].
    + rewrite H. reflexivity.
    + destruct (Js.startsWith style "rgb"); [|reflexivity].
      destruct (Widget.numbers style) as [|n0 [|n1 [|n2 more]]];
        try reflexivity.
      simpl in H. lia.
Qed.

Lemma getFill_fallback_witness :
  Widget.getFill "#ff0000" = Widget.defaultColor
  /\ Widget.getFill "rgb(12, 34)" = Widget.defaultColor.
Proof.
  split.
  - apply (getFill_fallback "#ff0000"). left. reflexivity.
  - apply (getFill_fallback "rgb(12, 34)"). right. vm_compute. lia.
Defined.

(** C10.  For every string that starts with "rgb" and whose digit runs
    give at least four numbers [k0], [k1], [k2], [k3], the colour returned
    has [r = k0/255], [g = k1/255], [b = k2/255] and [a = k3] itself,
    neither divided nor clamped.  The string is cut at every run of
    non-digits, so "0.5" contributes the two numbers 0 and 5 and the
    alpha returned for "rgb(255, 0, 0, 0.5)" is 0. *)
Theorem getFill_alpha_verbatim (style : string) (n0 n1 n2 n3 : option Z)
        (more : list (option Z)) :
  Js.startsWith style "rgb" = true ->
  Widget.numbers style = n0 :: n1 :: n2 :: n3 :: more ->
  (exists k0 k1 k2 k3 : Z,
     n0 = Some k0 /\ n1 = Some k1 /\ n2 = Some k2 /\ n3 = Some k3
     /\ Widget.getFill style =
          Widget.mkColor (Some (k0 # 255)%Q) (Some (k1 # 255)%Q)
                         (Some (k2 # 255)%Q) (Some (inject_Z k3)))
  /\ Widget.numbers "rgb(255, 0, 0, 0.5)" =
       [Some 255; Some 0; Some 0; Some 0; Some 5]
  /\ Widget.c_a (Widget.getFill "rgb(255, 0, 0, 0.5)") = Some (inject_Z 0).
Proof.
  intros Hrgb Hnum. split; [|split; reflexivity].
  pose proof (numbers_defined style) as Hdef. rewrite Hnum in Hdef.
  inversion Hdef as [|? ? [k0 ->] Hdef1]; subst.
  inversion Hdef1 as [|? ? [k1 ->] Hdef2]; subst.
  inversion Hdef2 as [|? ? [k2 ->] Hdef3]; subst.
  inversion Hdef3 as [|? ? [k3 ->] _]; subst.
  exists k0, k1, k2, k3. repeat split; try reflexivity.
  unfold Widget.getFill, Widget.getFill_try. rewrite Hrgb, Hnum. reflexivity.
Qed.

Lemma getFill_alpha_verbatim_witness :
  exists k0 k1 k2 k3 : Z,
    Some 10 = Some k0 /\ Some 20 = Some k1 /\ Some 30 = Some k2
    /\ Some 700 = Some k3
    /\ Widget.getFill "rgb(10, 20, 30, 700)" =
         Widget.mkColor (Some (k0 # 255)%Q) (Some (k1 # 255)%Q)
                        (Some (k2 # 255)%Q) (Some (inject_Z k3)).
Proof.
  apply (getFill_alpha_verbatim "rgb(10, 20, 30, 700)"
           (Some 10) (Some 20) (Some 30) (Some 700) []);
    reflexivity.
Defined.

(** ** Rendering: font weights *)

Lemma all_spaces_trimStart (w : string) :
  Spec.all_spaces w = true -> Js.trimStart w = "".
Proof.
  induction w as [|c w IH]; simpl; [reflexivity|].
  intros H. apply andb_true_iff in H as [Hc Hw]. rewrite Hc. auto.
Qed.

Lemma trimStart_head (w : string) :
  Spec.all_spaces w = false ->
  exists c rest, Js.trimStart w = String c rest /\ Js.is_space c = false.
Proof.
  induction w as [|c w IH]; simpl; [discriminate|].
  destruct (Js.is_space c) eqn:Hc; simpl.
  - exact IH.
  - intros _. exists c, w. split; [reflexivity|exact Hc].
Qed.

Lemma trim_empty (w : string) :
  Spec.all_spaces w = true -> Js.trim w = "".
Proof. intros H. unfold Js.trim. rewrite all_spaces_trimStart by exact H. reflexivity. Qed.

Lemma trim_nonempty (w : string) :
  Spec.all_spaces w = false ->
  (Z.of_nat (String.length (Js.trim w)) =? 0) = false.
Proof.
  intros H. destruct (trimStart_head w H) as [c [rest [Heq Hc]]].
  unfold Js.trim. rewrite Heq. simpl. rewrite Hc.
  destruct (Js.trimEnd rest); reflexivity.
Qed.

Lemma is_hundreds_iff (n : Z) :
  Widget.is_hundreds (Some n) = true <-> n mod 100 = 0 /\ 100 <= n <= 900.
Proof.
  unfold Widget.is_hundreds. rewrite !andb_true_iff.
  rewrite Z.eqb_eq, !Z.ltb_lt. split.
  - intros [[Hrem Hpos] Hlt]. rewrite Z.rem_mod_nonneg in Hrem by lia.
    split; [exact Hrem|].
    pose proof (Z.div_mod n 100 ltac:(lia)) as Hdm. rewrite Hrem in Hdm. lia.
  - intros [Hmod Hrange]. rewrite Z.rem_mod_nonneg by lia. lia.
Qed.

Lemma keyword_chain (k : string) :
  (if String.eqb k "thin" then Widget.WeightName "thin"
   else if String.eqb k "extra-light" then Widget.WeightName "extra-light"
   else if String.eqb k "light" then Widget.WeightName "light"
   else if String.eqb k "normal" then Widget.WeightName "normal"
   else if String.eqb k "medium" then Widget.WeightName "medium"
   else if String.eqb k "semi-bold" then Widget.WeightName "semi-bold"
   else if String.eqb k "bold" then Widget.WeightName "bold"
   else if String.eqb k "extra-bold" then Widget.WeightName "extra-bold"
   else if String.eqb k "black" then Widget.WeightName "black"
   else Widget.WeightName "normal") =
  if bool_decide (k ∈ Spec.keywords) then Widget.WeightName k
  else Widget.WeightName "normal".
Proof.
  unfold Spec.keywords.
  repeat match goal with
         | |- context [String.eqb k ?s] =>
             destruct (String.eqb_spec k s) as [->|?]; [reflexivity|]
         end.
  rewrite bool_decide_eq_false_2; [reflexivity|].
  rewrite !elem_of_cons, elem_of_nil. tauto.
Qed.

(** What [ensureFontWeight] computes past its first test. *)
Lemma ensureFontWeight_unfold (w : string) :
  Spec.all_spaces w = false ->
  Widget.ensureFontWeight w =
  if Widget.is_hundreds (Js.parseInt w)
  then Widget.WeightNumber (match Js.parseInt w with Some n => n | None => 0 end)
  else if bool_decide (Js.trim (Js.toLowerCase w) ∈ Spec.keywords)
       then Widget.WeightName (Js.trim (Js.toLowerCase w))
       else Widget.WeightName "normal".
Proof.
  intros H. unfold Widget.ensureFontWeight.
  rewrite trim_nonempty by exact H.
  destruct (Widget.is_hundreds (Js.parseInt w)); [reflexivity|].
  apply keyword_chain.
Qed.

(** C6, the claim at a value that is neither empty, nor a string of
    digits, nor a keyword: "400px" is turned into the number 400, and
    " Bold" into the keyword "bold", where the claim says "normal". *)
Lemma ensureFontWeight_other_values :
  Widget.ensureFontWeight "400px" <> Spec.normalize_weight "400px"
  /\ Widget.ensureFontWeight " Bold" <> Spec.normalize_weight " Bold".
Proof. split; vm_compute; discriminate. Qed.

(** C6, amended.  [ensureFontWeight(w)] returns "normal" when [w] is
    empty or white space; the integer when [w] is a multiple-of-100
    integer string in [100, 900]; the keyword when [w] is one of the nine
    keywords.  For every other [w] it returns [parseInt(w)] when that
    number (leading white space, a sign and a [0x] prefix accepted,
    everything after the digits ignored) is a multiple of 100 in
    [100, 900]; failing that, the keyword that [w] becomes once
    lower-cased and trimmed; failing that, "normal". *)
Theorem ensureFontWeight_normalizes (w : string) :
  (Spec.all_spaces w = true ->
   Widget.ensureFontWeight w = Widget.WeightName "normal")
  /\ (Spec.hundreds_string w = true ->
      Widget.ensureFontWeight w = Widget.WeightNumber (Spec.decimal w))
  /\ (w ∈ Spec.keywords -> Widget.ensureFontWeight w = Widget.WeightName w)
  /\ (Spec.all_spaces w = false ->
      (forall n, Js.parseInt w = Some n -> n mod 100 = 0 -> 100 <= n <= 900 ->
                 Widget.ensureFontWeight w = Widget.WeightNumber n)
      /\ ((forall n, Js.parseInt w = Some n ->
                     ~ (n mod 100 = 0 /\ 100 <= n <= 900)) ->
          (Js.trim (Js.toLowerCase w) ∈ Spec.keywords ->
           Widget.ensureFontWeight w =
             Widget.WeightName (Js.trim (Js.toLowerCase w)))
          /\ (Js.trim (Js.toLowerCase w) ∉ Spec.keywords ->
              Widget.ensureFontWeight w = Widget.WeightName "normal"))).
Proof.
  split; [|split; [|split]].
  - intros H. unfold Widget.ensureFontWeight.
    rewrite trim_empty by exact H. reflexivity.
  - intros H. unfold Spec.hundreds_string in H.
    rewrite !andb_true_iff in H. destruct H as [[[[Hne Hdig] Hlo] Hhi] Hmod].
    apply negb_true_iff in Hne.
    assert (Hw : w <> "") by (intros ->; discriminate Hne).
    assert (Hsp : Spec.all_spaces w = false).
    { destruct w as [|c w]; [congruence|]. simpl in *.
      apply andb_true_iff in Hdig as [Hc _].
      rewrite (digit_not_space c Hc). reflexivity. }
    rewrite ensureFontWeight_unfold by exact Hsp.
    rewrite parseInt_digits by assumption.
    apply Z.leb_le in Hlo, Hhi. apply Z.eqb_eq in Hmod.
    rewrite (proj2 (is_hundreds_iff (Spec.decimal w))) by auto.
    reflexivity.
  - unfold Spec.keywords. rewrite !elem_of_cons, elem_of_nil.
    intros H. repeat (destruct H as [->|H]; [reflexivity|]). contradiction.
  - intros Hsp. rewrite ensureFontWeight_unfold by exact Hsp. split.
    + intros n Hn Hmod Hrange. rewrite Hn.
      rewrite (proj2 (is_hundreds_iff n)) by auto. reflexivity.
    + intros Hnot.
      assert (Hh : Widget.is_hundreds (Js.parseInt w) = false).
      { destruct (Js.parseInt w) as [n|] eqn:Hn; [|reflexivity].
        destruct (Widget.is_hundreds (Some n)) eqn:Hh; [|reflexivity].
        apply is_hundreds_iff in Hh. exfalso. exact (Hnot n eq_refl Hh). }
      rewrite Hh. split; intros Hk.
      * rewrite bool_decide_eq_true_2 by exact Hk. reflexivity.
      * rewrite bool_decide_eq_false_2 by exact Hk. reflexivity.
Qed.

Lemma ensureFontWeight_normalizes_witness :
  Widget.ensureFontWeight "  " = Widget.WeightName "normal"
  /\ Widget.ensureFontWeight "700" = Widget.WeightNumber 700
  /\ Widget.ensureFontWeight "semi-bold" = Widget.WeightName "semi-bold"
  /\ Widget.ensureFontWeight "400px" = Widget.WeightNumber 400
  /\ Widget.ensureFontWeight " Bold" = Widget.WeightName "bold"
  /\ Widget.ensureFontWeight "heavy" = Widget.WeightName "normal".
Proof.
  split; [|split; [|split; [|split; [|split]]]].
  - apply (proj1 (ensureFontWeight_normalizes "  ")). reflexivity.
  - apply (proj1 (proj2 (ensureFontWeight_normalizes "700"))). reflexivity.
  - apply (proj1 (proj2 (proj2 (ensureFontWeight_normalizes "semi-bold")))).
    apply (bool_decide_eq_true_1 ("semi-bold" ∈ Spec.keywords)). reflexivity.
  - apply (proj1 (proj2 (proj2 (proj2 (ensureFontWeight_normalizes "400px")))
                   eq_refl)); [reflexivity | reflexivity | lia].
  - apply (proj2 (proj2 (proj2 (proj2 (ensureFontWeight_normalizes " Bold")))
                   eq_refl)).
    + intros n Hn. vm_compute in Hn. discriminate Hn.
    + apply (bool_decide_eq_true_1 ("bold" ∈ Spec.keywords)). reflexivity.
  - apply (proj2 (proj2 (proj2 (proj2 (ensureFontWeight_normalizes "heavy")))
                   eq_refl)).
    + intros n Hn. vm_compute in Hn. discriminate Hn.
    + apply (bool_decide_eq_false_1 ("heavy" ∈ Spec.keywords)). reflexivity.
Defined.

(** ** The cells of the grid *)

Section Cells.
Variable cellStyle : Style.

Lemma grid_loop_cells s st :
  g_tokens (grid_loop cellStyle s st) =
  g_tokens st ++ cells_from cellStyle s (g_i st) (g_x st) (g_y st).
Proof.
  revert st. induction s as [|c s IH]; intros st; simpl.
  - rewrite app_nil_r. reflexivity.
  - rewrite IH. unfold grid_step. rewrite is_newline_char.
    destruct (Ascii.eqb c NL); simpl; rewrite <- app_assoc; reflexivity.
Qed.

Lemma grid_cells s : g_tokens (grid cellStyle s) = cells_from cellStyle s 0 0 0.
Proof. unfold grid. rewrite grid_loop_cells. reflexivity. Qed.

Lemma cells_from_one_char s i x y :
  0 <= x -> Forall one_char (cells_from cellStyle s i x y).
Proof.
  revert i x y. induction s as [|c s IH]; intros i x y Hx; simpl.
  - constructor.
  - constructor.
    + split; [exact Hx|]. exists c. reflexivity.
    + destruct (Ascii.eqb c NL); apply IH; lia.
Qed.

Lemma cells_from_chain s i x y : chain (cells_from cellStyle s i x y).
Proof.
  revert i x y. induction s as [|c s IH]; intros i x y; simpl; [exact I|].
  split.
  - destruct s as [|c2 s]; simpl.
    + destruct (Ascii.eqb c NL); exact I.
    + unfold follows, cell_newline. simpl tok_text.
      rewrite is_newline_char.
      destruct (Ascii.eqb c NL); simpl; repeat split; reflexivity.
  - destruct (Ascii.eqb c NL); apply IH.
Qed.
End Cells.

Lemma cells_from_restyle (s1 s2 : Style) (s : string) (i x y : Z) :
  cells_from s1 s i x y = map (restyle s1) (cells_from s2 s i x y).
Proof.
  revert i x y. induction s as [|c s IH]; intros i x y; simpl; [reflexivity|].
  unfold restyle at 1. simpl. f_equal.
  destruct (Ascii.eqb c NL); apply IH.
Qed.

(** [chain] and [one_char] look at the cells only, not at the styles. *)
Lemma cell_fields (a b : Token) :
  cell a = cell b ->
  tok_i a = tok_i b /\ tok_x a = tok_x b /\ tok_y a = tok_y b
  /\ tok_text a = tok_text b.
Proof. unfold cell. intros [= ? ? ? ?]. auto. Qed.

Lemma map_cell_cons (a b : Token) (l1 l2 : list Token) :
  map cell (a :: l1) = map cell (b :: l2) ->
  cell a = cell b /\ map cell l1 = map cell l2.
Proof.
  intros H. split.
  - exact (f_equal (hd (cell a)) H).
  - exact (f_equal (@tl _) H).
Qed.

Lemma follows_cells (a a2 b b2 : Token) :
  cell a = cell b -> cell a2 = cell b2 -> follows a a2 -> follows b b2.
Proof.
  intros Hab Hab2. apply cell_fields in Hab as (? & ? & ? & ?).
  apply cell_fields in Hab2 as (? & ? & ? & ?).
  unfold follows, cell_newline.
  destruct a, b, a2, b2; simpl in *; subst. auto.
Qed.

Lemma chain_cells (l1 l2 : list Token) :
  map cell l1 = map cell l2 -> chain l1 -> chain l2.
Proof.
  revert l2. induction l1 as [|a l1 IH]; intros [|b l2] Heq H;
    try discriminate Heq; [exact I|].
  apply map_cell_cons in Heq as [Hab Htl].
  simpl in H. destruct H as [Hf Hc]. simpl. split.
  - destruct l1 as [|a2 l1], l2 as [|b2 l2]; try discriminate Htl; [exact I|].
    apply map_cell_cons in Htl as [Hab2 _].
    exact (follows_cells _ _ _ _ Hab Hab2 Hf).
  - apply IH; assumption.
Qed.

Lemma one_char_cells (l1 l2 : list Token) :
  map cell l1 = map cell l2 -> Forall one_char l1 -> Forall one_char l2.
Proof.
  revert l2. induction l1 as [|a l1 IH]; intros [|b l2] Heq H;
    try discriminate Heq; [constructor|].
  apply map_cell_cons in Heq as [Hab Htl].
  inversion H as [|? ? Ha Hl]; subst.
  constructor; [|apply IH; assumption].
  apply cell_fields in Hab as (? & ? & ? & ?).
  unfold one_char in *. destruct Ha as [Hx [c Hc]].
  split; [lia|]. exists c. congruence.
Qed.

(** ** The span applier *)

Section Colouring.
Variable computed : string -> Style.

Lemma set_style_Some tokens i style :
  0 <= i < Z.of_nat (length tokens) ->
  exists tokens', Ui.set_style tokens i style = Some tokens'.
Proof.
  intros Hi. unfold Ui.set_style.
  destruct (Z.ltb_spec i 0); [lia|].
  destruct (tokens !! Z.to_nat i) eqn:Hl; [eexists; reflexivity|].
  apply lookup_ge_None in Hl. lia.
Qed.

Lemma set_style_None (tokens : list Token) (i : Z) (style : Style) :
  Ui.set_style tokens i style = None <->
  (i < 0 \/ Z.of_nat (length tokens) <= i).
Proof.
  unfold Ui.set_style. destruct (Z.ltb_spec i 0).
  - split; [auto|reflexivity].
  - destruct (tokens !! Z.to_nat i) eqn:Hl.
    + apply lookup_lt_Some in Hl. split; [discriminate|lia].
    + apply lookup_ge_None in Hl. split; [intros _; lia|reflexivity].
Qed.

Lemma set_style_cells tokens i style tokens' :
  Ui.set_style tokens i style = Some tokens' ->
  map cell tokens' = map cell tokens.
Proof.
  unfold Ui.set_style. destruct (i <? 0); [discriminate|].
  destruct (tokens !! Z.to_nat i) as [t|] eqn:Hl; [|discriminate].
  intros [= <-]. change (map cell) with (fmap (M:=list) cell).
  rewrite list_fmap_insert. apply list_insert_id.
  rewrite list_lookup_fmap, Hl. reflexivity.
Qed.

Lemma color_range_cells n i classes tokens cache tokens' cache' :
  Ui.color_range computed n i classes tokens cache = Some (tokens', cache') ->
  map cell tokens' = map cell tokens.
Proof.
  revert i tokens cache. induction n as [|n IH]; intros i tokens cache; simpl.
  - intros [= <- <-]. reflexivity.
  - destruct (Ui.getStyle computed cache classes) as [style cache1].
    destruct (Ui.set_style tokens i style) as [tokens1|] eqn:Hs; [|discriminate].
    intros H. apply IH in H. rewrite H. eapply set_style_cells, Hs.
Qed.

Lemma color_tokens_cells highlighting tokens cache tokens' cache' :
  Ui.color_tokens computed highlighting tokens cache = Some (tokens', cache') ->
  map cell tokens' = map cell tokens.
Proof.
  revert tokens cache.
  induction highlighting as [|[[from to] classes] hl IH];
    intros tokens cache; simpl.
  - intros [= <- <-]. reflexivity.
  - destruct (Ui.color_range computed _ from classes tokens cache)
      as [[tokens1 cache1]|] eqn:Hr; [|discriminate].
    intros H. apply IH in H. rewrite H. eapply color_range_cells, Hr.
Qed.

Lemma color_range_Some n i classes tokens cache :
  0 <= i -> i + Z.of_nat n <= Z.of_nat (length tokens) ->
  exists tokens' cache',
    Ui.color_range computed n i classes tokens cache = Some (tokens', cache').
Proof.
  revert i tokens cache. induction n as [|n IH]; intros i tokens cache Hi Hn;
    simpl.
  - eexists _, _. reflexivity.
  - destruct (Ui.getStyle computed cache classes) as [style cache1].
    destruct (set_style_Some tokens i style ltac:(lia)) as [tokens1 Hs].
    rewrite Hs. apply IH; [lia|].
    apply set_style_cells in Hs. apply (f_equal length) in Hs.
    rewrite !length_map in Hs. lia.
Qed.

Lemma color_tokens_Some highlighting tokens cache :
  Forall (fun h : Z * Z * string =>
            0 <= h.1.1 <= h.1.2 /\ h.1.2 <= Z.of_nat (length tokens))
         highlighting ->
  exists tokens' cache',
    Ui.color_tokens computed highlighting tokens cache = Some (tokens', cache').
Proof.
  revert tokens cache.
  induction highlighting as [|[[from to] classes] hl IH];
    intros tokens cache Hall; simpl.
  - eexists _, _. reflexivity.
  - inversion Hall as [|? ? [Hft Hto] Hrest]; subst. simpl in Hft, Hto.
    destruct (color_range_Some (Z.to_nat (to - from)) from classes tokens cache)
      as [tokens1 [cache1 Hr]]; [lia|lia|].
    rewrite Hr. apply IH.
    apply color_range_cells in Hr. apply (f_equal length) in Hr.
    rewrite !length_map in Hr. rewrite Hr. exact Hrest.
Qed.
End Colouring.

(** C9.  The write [tokens[i].style = ...] fails exactly when [i] is
    outside [0 .. length - 1].  When every highlight span
    [(from, to, label)] satisfies [0 <= from <= to <= length of the
    document], the span loop never makes such a write: it ends normally,
    leaving one token per character of the document, each with its
    index, position and character unchanged, and the listener posts its
    message. *)
Theorem span_applier_in_bounds (computed : string -> Style)
        (STYLE_CACHE : gmap string Style)
        (highlighting : list (Z * Z * string))
        (docContents languageName : string) :
  Forall (fun h : Z * Z * string =>
            0 <= h.1.1 <= h.1.2
            /\ h.1.2 <= Z.of_nat (String.length docContents))
         highlighting ->
  (forall (tokens : list Token) (i : Z) (style : Style),
     Ui.set_style tokens i style = None <->
     (i < 0 \/ Z.of_nat (length tokens) <= i))
  /\ (exists tokens' cache',
        Ui.color_tokens computed highlighting
                        (g_tokens (Ui.tokenize docContents)) STYLE_CACHE
          = Some (tokens', cache')
        /\ map cell tokens' = map cell (g_tokens (Ui.tokenize docContents))
        /\ length tokens' = String.length docContents)
  /\ is_Some (Ui.updateListener computed STYLE_CACHE highlighting
                                docContents languageName).
Proof.
  intros Hall. split; [apply set_style_None|].
  assert (Hlen : length (g_tokens (Ui.tokenize docContents)) =
                 String.length docContents).
  { unfold Ui.tokenize, grid. rewrite grid_loop_length. reflexivity. }
  destruct (color_tokens_Some computed highlighting
              (g_tokens (Ui.tokenize docContents)) STYLE_CACHE)
    as [tokens' [cache' Hc]].
  { rewrite Hlen. exact Hall. }
  split.
  - exists tokens', cache'. split; [exact Hc|].
    pose proof (color_tokens_cells _ _ _ _ _ _ Hc) as Hcells.
    split; [exact Hcells|].
    apply (f_equal length) in Hcells. rewrite !length_map in Hcells. lia.
  - unfold Ui.updateListener. rewrite Hc. eexists. reflexivity.
Qed.

Lemma span_applier_in_bounds_witness :
  is_Some (Ui.updateListener (fun _ => mkStyle "rgb(255, 0, 0)" "bold") ∅
                             [(0, 2, "kw"); (1, 3, "str"); (3, 3, "x")]
                             "abc" "JavaScript").
Proof.
  apply (span_applier_in_bounds (fun _ => mkStyle "rgb(255, 0, 0)" "bold") ∅
           [(0, 2, "kw"); (1, 3, "str"); (3, 3, "x")] "abc" "JavaScript").
  repeat constructor; simpl; lia.
Defined.

(** ** The run coalescer as blocks of cells *)

Lemma append_cons (c : ascii) (s1 s2 : string) :
  String c s1 +:+ s2 = String c (s1 +:+ s2).
Proof. reflexivity. Qed.

Lemma append_nil_l (s : string) : "" +:+ s = s.
Proof. reflexivity. Qed.

Lemma append_nil_r (s : string) : s +:+ "" = s.
Proof.
  induction s as [|c s IH]; [reflexivity|].
  rewrite append_cons, IH. reflexivity.
Qed.

Lemma append_assoc (s1 s2 s3 : string) : (s1 +:+ s2) +:+ s3 = s1 +:+ s2 +:+ s3.
Proof.
  induction s1 as [|c s1 IH]; [reflexivity|].
  rewrite !append_cons, IH. reflexivity.
Qed.

Lemma combine_text_foldr (run : list Token) :
  Ui.combine_text run = foldr (fun t acc => tok_text t +:+ acc) "" run.
Proof.
  unfold Ui.combine_text.
  assert (H : forall acc,
             fold_left (fun acc token => acc +:+ tok_text token) run acc =
             acc +:+ foldr (fun t acc => tok_text t +:+ acc) "" run).
  { induction run as [|t run IH]; intros acc; simpl.
    - symmetry. apply append_nil_r.
    - rewrite IH. apply append_assoc. }
  apply (H "").
Qed.

Lemma style_differs_false (s1 s2 : Style) :
  Ui.style_differs s1 s2 = false <-> s1 = s2.
Proof.
  unfold Ui.style_differs. destruct s1 as [c1 w1], s2 as [c2 w2]. simpl.
  destruct (String.eqb_spec c1 c2), (String.eqb_spec w1 w2); simpl;
    split; intros H; try discriminate; try congruence.
Qed.

(** [flushTokens] pushes the run of the current block, if there is one. *)
Lemma flushTokens_close (st : Ui.GroupState) :
  Ui.flushTokens st =
  Ui.mkGroup (Ui.newTokens st ++ map run_of (close (Ui.currentRun st)))
             (Ui.prevToken st) [].
Proof.
  unfold Ui.flushTokens. destruct st as [new prev [|f cur]]; simpl.
  - rewrite app_nil_r. reflexivity.
  - reflexivity.
Qed.

(** The grouping loop pushes the runs of [blocks], as long as the previous
    token is the last one of a run being collected. *)
Lemma group_loop_blocks (ts : list Token) (st : Ui.GroupState) :
  (Ui.currentRun st <> [] -> Ui.prevToken st = last (Ui.currentRun st)) ->
  Ui.newTokens (Ui.flushTokens (fold_left Ui.group_step ts st)) =
  Ui.newTokens st ++ map run_of (blocks (Ui.currentRun st) ts).
Proof.
  revert st. induction ts as [|t ts IH]; intros st Hprev.
  - rewrite flushTokens_close. reflexivity.
  - cbn [fold_left blocks]. rewrite IH; clear IH.
    + unfold Ui.group_step, cell_newline.
      destruct (is_newline (tok_text t)).
      * rewrite flushTokens_close. cbn.
        rewrite map_app, app_assoc. reflexivity.
      * destruct st as [new prev cur]. cbn in *.
        destruct cur as [|c0 cur].
        -- cbn. destruct prev as [p|]; [|reflexivity].
           destruct (Ui.style_differs _ _); reflexivity.
        -- rewrite Hprev by discriminate.
           destruct (last (c0 :: cur)) as [p|] eqn:Hl.
           ++ destruct (Ui.style_differs _ _); cbn.
              ** rewrite <- app_assoc. reflexivity.
              ** reflexivity.
           ++ apply last_None in Hl. discriminate.
    + unfold Ui.group_step.
      destruct (is_newline (tok_text t)).
      * rewrite flushTokens_close. cbn. intros Hne. congruence.
      * intros _. cbn. destruct (Ui.prevToken st) as [p|].
        -- destruct (Ui.style_differs _ _).
           ++ rewrite flushTokens_close. cbn. reflexivity.
           ++ cbn. rewrite last_snoc. reflexivity.
        -- cbn. rewrite last_snoc. reflexivity.
Qed.

Lemma groupTokens_blocks (ts : list Token) :
  Ui.groupTokens ts = map run_of (blocks [] ts).
Proof.
  unfold Ui.groupTokens. rewrite group_loop_blocks; [reflexivity|].
  intros H. contradiction H. reflexivity.
Qed.

Lemma same_style_snoc (cur : list Token) (p t : Token) :
  same_style cur -> last cur = Some p -> tok_style p = tok_style t ->
  same_style (cur ++ [t]).
Proof.
  intros Hs Hl Hpt a b Ha Hb.
  assert (Hp : p ∈ cur).
  { apply last_Some in Hl as [l' ->]. apply elem_of_app. right.
    apply list_elem_of_singleton. reflexivity. }
  apply elem_of_app in Ha as [Ha|Ha]; apply elem_of_app in Hb as [Hb|Hb];
    try (apply list_elem_of_singleton in Ha as ->);
    try (apply list_elem_of_singleton in Hb as ->).
  - apply Hs; assumption.
  - rewrite <- Hpt. apply Hs; assumption.
  - rewrite <- Hpt. apply Hs; assumption.
  - reflexivity.
Qed.

Lemma same_style_single (t : Token) : same_style [t].
Proof.
  intros a b Ha Hb. apply list_elem_of_singleton in Ha, Hb. congruence.
Qed.

(** Every block is a non-empty segment of the cells read, without a
    newline cell and of one style. *)
Lemma blocks_segments (ts cur : list Token) (B : list Token) :
  no_newline cur -> same_style cur ->
  B ∈ blocks cur ts ->
  B <> [] /\ no_newline B /\ same_style B
  /\ exists pre post, cur ++ ts = pre ++ B ++ post.
Proof.
  revert cur. induction ts as [|t ts IH]; intros cur Hnl Hs HB.
  - simpl in HB. destruct cur as [|c0 cur]; simpl in HB.
    + apply elem_of_nil in HB. contradiction.
    + apply list_elem_of_singleton in HB as ->.
      repeat split; [discriminate|assumption|assumption|].
      exists [], []. rewrite !app_nil_r. reflexivity.
  - simpl in HB. destruct (cell_newline t) eqn:Ht.
    + apply elem_of_app in HB as [HB|HB].
      * destruct cur as [|c0 cur]; simpl in HB.
        -- apply elem_of_nil in HB. contradiction.
        -- apply list_elem_of_singleton in HB as ->.
           repeat split; [discriminate|assumption|assumption|].
           exists [], (t :: ts). reflexivity.
      * destruct (IH [] ltac:(constructor) ltac:(intros a b Ha; inversion Ha) HB)
          as (Hne & HnB & HsB & pre & post & Heq).
        repeat split; [assumption..|].
        exists (cur ++ t :: pre), post. simpl in Heq. rewrite Heq.
        rewrite <- app_assoc. reflexivity.
    + destruct (last cur) as [p|] eqn:Hl.
      * destruct (Ui.style_differs (tok_style p) (tok_style t)) eqn:Hd.
        -- apply elem_of_cons in HB as [->|HB].
           ++ repeat split; [|assumption|assumption|].
              ** intros ->. discriminate Hl.
              ** exists [], (t :: ts). reflexivity.
           ++ destruct (IH [t]) with (3 := HB)
                as (Hne & HnB & HsB & pre & post & Heq).
              { constructor; [exact Ht|constructor]. }
              { apply same_style_single. }
              repeat split; [assumption..|].
              exists (cur ++ pre), post. simpl in Heq.
              rewrite <- app_assoc. simpl. rewrite Heq. reflexivity.
        -- apply style_differs_false in Hd.
           destruct (IH (cur ++ [t])) with (3 := HB)
             as (Hne & HnB & HsB & pre & post & Heq).
           { apply Forall_app. split; [assumption|].
             constructor; [exact Ht|constructor]. }
           { eapply same_style_snoc; eassumption. }
           repeat split; [assumption..|].
           exists pre, post. rewrite <- Heq, <- app_assoc. reflexivity.
      * apply last_None in Hl. subst cur.
        destruct (IH [t]) with (3 := HB)
          as (Hne & HnB & HsB & pre & post & Heq).
        { constructor; [exact Ht|constructor]. }
        { apply same_style_single. }
        repeat split; [assumption..|].
        exists pre, post. exact Heq.
Qed.

(** ** The text of a run *)

Lemma one_char_newline (t : Token) :
  one_char t -> cell_newline t = false ->
  exists c, tok_text t = String c "" /\ c <> NL.
Proof.
  intros [_ [c Hc]] Hnl. exists c. split; [exact Hc|].
  unfold cell_newline in Hnl. rewrite Hc, is_newline_char in Hnl.
  intros ->. rewrite Ascii.eqb_refl in Hnl. discriminate.
Qed.

(** The text of a block of one-character cells without a newline cell has
    one character per cell and no newline character. *)
Lemma block_text (B : list Token) :
  Forall one_char B -> no_newline B ->
  String.length (Ui.combine_text B) = length B
  /\ ~ In NL (list_ascii_of_string (Ui.combine_text B)).
Proof.
  rewrite combine_text_foldr.
  induction B as [|t B IH]; intros Hone Hnl; simpl.
  - split; [reflexivity|]. intros [].
  - inversion Hone as [|? ? Ht HB]; subst.
    inversion Hnl as [|? ? Htn HBn]; subst.
    destruct (one_char_newline t Ht Htn) as [c [Hc Hne]].
    destruct (IH HB HBn) as [IHlen IHin].
    rewrite Hc, append_cons, append_nil_l. simpl. split; [congruence|].
    intros [Heq|Hin]; [congruence|]. exact (IHin Hin).
Qed.

Lemma blocks_all_newlines (ts : list Token) :
  Forall (fun t => cell_newline t = true) ts -> blocks [] ts = [].
Proof.
  induction ts as [|t ts IH]; intros H; [reflexivity|].
  inversion H as [|? ? Ht Hts]; subst. simpl. rewrite Ht. simpl. auto.
Qed.

Lemma reach_zero_newlines (cellStyle : Style) (s : string) (i y : Z) :
  reach 0 s = 0 ->
  Forall (fun t => cell_newline t = true) (cells_from cellStyle s i 0 y).
Proof.
  revert i y. induction s as [|c s IH]; intros i y H; simpl; [constructor|].
  simpl in H. destruct (Ascii.eqb c NL) eqn:Hc.
  - constructor.
    + unfold cell_newline. simpl. rewrite is_newline_char. exact Hc.
    + apply IH. pose proof (reach_ge 0 s). lia.
  - pose proof (reach_ge (0 + 1) s). lia.
Qed.

Lemma newline_cells (l1 l2 : list Token) :
  map cell l1 = map cell l2 ->
  Forall (fun t => cell_newline t = true) l1 ->
  Forall (fun t => cell_newline t = true) l2.
Proof.
  revert l2. induction l1 as [|a l1 IH]; intros [|b l2] Heq H;
    try discriminate Heq; [constructor|].
  apply map_cell_cons in Heq as [Hab Htl].
  inversion H as [|? ? Ha Hl]; subst.
  constructor; [|apply IH; assumption].
  apply cell_fields in Hab as (_ & _ & _ & Ht).
  unfold cell_newline in *. congruence.
Qed.

(** The runs of well-formed cells are flushed from segments of them. *)
Lemma runs_from_cells (cells : list Token) (r : Token) :
  Forall one_char cells -> In r (Ui.groupTokens cells) ->
  (1 <= String.length (tok_text r))%nat
  /\ ~ In NL (list_ascii_of_string (tok_text r))
  /\ run_from cells r.
Proof.
  intros Hone Hr. rewrite groupTokens_blocks in Hr.
  apply in_map_iff in Hr as [B [<- HB]]. apply list_elem_of_In in HB.
  destruct (blocks_segments cells [] B) as (Hne & Hnl & _ & pre & post & Heq);
    [constructor | intros a b Ha; inversion Ha | exact HB |].
  simpl in Heq.
  assert (HoneB : Forall one_char B).
  { rewrite Heq in Hone. apply Forall_app in Hone as [_ Hone].
    apply Forall_app in Hone as [Hone _]. exact Hone. }
  destruct (block_text B HoneB Hnl) as [Hlen Hin].
  destruct B as [|first rest]; [congruence|].
  simpl run_of. simpl tok_text. split; [|split].
  - rewrite Hlen. simpl. lia.
  - exact Hin.
  - exists first, rest, pre, post. repeat split. exact Heq.
Qed.

(** ** Snapshot invariants *)

Lemma cell_run_from (cells : list Token) (r : Token) :
  In r cells -> run_from cells r.
Proof.
  intros Hin. apply in_split in Hin as [pre [post ->]].
  exists r, [], pre, post. repeat split.
Qed.

Lemma tokenize_one_char (docContents : string) :
  Forall one_char (g_tokens (Ui.tokenize docContents)).
Proof.
  unfold Ui.tokenize. rewrite grid_cells. apply cells_from_one_char. lia.
Qed.

Lemma tokenize_chain (docContents : string) :
  chain (g_tokens (Ui.tokenize docContents)).
Proof. unfold Ui.tokenize. rewrite grid_cells. apply cells_from_chain. Qed.

Lemma width_zero_newlines (cellStyle : Style) (s : string) :
  g_width (grid cellStyle s) = 0 ->
  Forall (fun t => cell_newline t = true) (g_tokens (grid cellStyle s)).
Proof.
  intros Hw. rewrite grid_cells. apply reach_zero_newlines.
  unfold grid in Hw. rewrite grid_loop_width in Hw by (simpl; lia).
  simpl in Hw. pose proof (reach_ge 0 s). lia.
Qed.

(** A cell of the grid holds one character of the text. *)
Lemma cells_from_text (cellStyle : Style) (s : string) (i x y : Z) (r : Token) :
  In r (cells_from cellStyle s i x y) ->
  (1 <= String.length (tok_text r))%nat
  /\ (forall c, In c (list_ascii_of_string (tok_text r)) ->
                In c (list_ascii_of_string s)).
Proof.
  revert i x y. induction s as [|c0 s IH]; intros i x y Hr; simpl in Hr.
  - contradiction.
  - destruct Hr as [<-|Hr].
    + simpl. split; [lia|]. intros c [<-|[]]. left. reflexivity.
    + assert (Hr' : exists i' x' y', In r (cells_from cellStyle s i' x' y')).
      { destruct (Ascii.eqb c0 NL); eauto. }
      destruct Hr' as (i' & x' & y' & Hr').
      destruct (IH _ _ _ Hr') as [Hlen Hsub]. split; [exact Hlen|].
      intros c Hc. right. apply Hsub, Hc.
Qed.

(** C8.  Every message posted by the update listener, and the placeholder
    message for every language, has [width >= 0] and [height >= 1], has
    no run when its width is 0, and has only runs whose text holds at
    least one character and no newline, with index, row, column and
    style those of the first cell of the segment of cells the run was
    made from. *)
Theorem snapshot_invariants :
  (forall (computed : string -> Style) (STYLE_CACHE : gmap string Style)
          (highlighting : list (Z * Z * string))
          (docContents languageName : string)
          (msg : Message) (cache' : gmap string Style),
      Ui.updateListener computed STYLE_CACHE highlighting docContents
                        languageName = Some (msg, cache') ->
      exists cells,
        Ui.color_tokens computed highlighting
                        (g_tokens (Ui.tokenize docContents)) STYLE_CACHE
          = Some (cells, cache')
        /\ snapshot_ok cells msg)
  /\ (forall language : option string,
        snapshot_ok
          (tokens (Widget.placeholderTokens Widget.PLACEHOLDER_TEXT language))
          (Widget.placeholderTokens Widget.PLACEHOLDER_TEXT language)).
Proof.
  split.
  - intros computed cache highlighting docContents languageName msg cache' H.
    unfold Ui.updateListener in H.
    destruct (Ui.color_tokens computed highlighting _ cache)
      as [[cells cache1]|] eqn:Hc; [|discriminate].
    injection H as <- <-. exists cells. split; [reflexivity|].
    pose proof (color_tokens_cells _ _ _ _ _ _ Hc) as Hcells.
    unfold snapshot_ok. cbn [width height tokens].
    split; [|split; [|split]].
    + unfold Ui.tokenize. rewrite grid_width_rows. lia.
    + unfold Ui.tokenize, grid. rewrite grid_loop_y. simpl. lia.
    + intros Hw. rewrite groupTokens_blocks.
      rewrite blocks_all_newlines; [reflexivity|].
      eapply newline_cells; [symmetry; exact Hcells|].
      apply width_zero_newlines, Hw.
    + apply List.Forall_forall. intros r Hr.
      apply runs_from_cells; [|exact Hr].
      eapply one_char_cells; [symmetry; exact Hcells|].
      apply tokenize_one_char.
  - intros language. unfold snapshot_ok.
    cbn [width height tokens Widget.placeholderTokens].
    split; [|split; [|split]].
    + vm_compute. discriminate.
    + vm_compute. discriminate.
    + vm_compute. discriminate.
    + apply List.Forall_forall. intros r Hr.
      rewrite grid_cells in Hr.
      split; [|split; [|rewrite grid_cells; apply cell_run_from, Hr]].
      * apply (cells_from_text _ _ _ _ _ _ Hr).
      * destruct (cells_from_text _ _ _ _ _ _ Hr) as [_ Hsub].
        intros Hin. apply Hsub in Hin. simpl in Hin.
        repeat (destruct Hin as [Hin|Hin]; [discriminate Hin|]).
        contradiction.
Qed.

Lemma snapshot_invariants_witness :
  exists cells,
    Ui.color_tokens (fun _ => mkStyle "rgb(255, 0, 0)" "bold")
                    [(0, 1, "kw")] (g_tokens (Ui.tokenize "ab")) ∅
      = Some (cells, {["kw" := mkStyle "rgb(255, 0, 0)" "bold"]})
    /\ snapshot_ok cells
         (mkMessage "text" 2 1 "ab"
            [mkToken 0 0 0 "a" (mkStyle "rgb(255, 0, 0)" "bold");
             mkToken 1 1 0 "b" Ui.DEFAULT_STYLE]
            (Some "JavaScript")).
Proof.
  apply (proj1 snapshot_invariants
           (fun _ => mkStyle "rgb(255, 0, 0)" "bold") ∅ [(0, 1, "kw")]
           "ab" "JavaScript").
  reflexivity.
Defined.

(** ** Positions along a chain of cells *)

Lemma chain_app_r (l1 l2 : list Token) : chain (l1 ++ l2) -> chain l2.
Proof.
  induction l1 as [|a l1 IH]; simpl; [auto|]. intros [_ H]. auto.
Qed.

Lemma chain_app_l (l1 l2 : list Token) : chain (l1 ++ l2) -> chain l1.
Proof.
  induction l1 as [|a l1 IH]; simpl; [auto|]. intros [Hf H]. split; [|auto].
  destruct l1 as [|b l1]; [exact I|exact Hf].
Qed.

(** Rows never decrease along a chain, and increase past a newline. *)
Lemma chain_rows (l : list Token) (a b : Token) :
  chain (a :: l) -> b ∈ l ->
  tok_y a <= tok_y b /\ (cell_newline a = true -> tok_y a + 1 <= tok_y b).
Proof.
  revert a. induction l as [|a2 l IH]; intros a Hc Hb.
  - apply elem_of_nil in Hb. contradiction.
  - destruct Hc as [Hf Hc]. unfold follows in Hf. destruct Hf as [_ Hf].
    assert (Hstep : tok_y a <= tok_y a2
                    /\ (cell_newline a = true -> tok_y a + 1 <= tok_y a2)).
    { destruct (cell_newline a); [|split; [lia|discriminate]].
      split; [lia|]. intros _. lia. }
    apply elem_of_cons in Hb as [->|Hb]; [exact Hstep|].
    destruct (IH a2 Hc Hb) as [Hle _]. split; [lia|].
    intros Hn. destruct Hstep as [_ Hs]. specialize (Hs Hn). lia.
Qed.

(** Within a row the [k]-th next cell is [k] columns to the right. *)
Lemma row_positions (k : nat) (c0 : Token) (l : list Token) (b : Token) :
  chain (c0 :: l) -> (c0 :: l) !! k = Some b ->
  (forall j t, (j < k)%nat -> (c0 :: l) !! j = Some t -> cell_newline t = false) ->
  tok_y b = tok_y c0 /\ tok_x b = tok_x c0 + Z.of_nat k
  /\ tok_i b = tok_i c0 + Z.of_nat k.
Proof.
  revert c0 l. induction k as [|k IH]; intros c0 l Hc Hk Hrow.
  - simpl in Hk. injection Hk as <-. repeat split; lia.
  - destruct l as [|c1 l]; [discriminate Hk|].
    destruct Hc as [Hf Hc]. simpl in Hk.
    assert (H0 : cell_newline c0 = false).
    { apply (Hrow O c0); [lia|reflexivity]. }
    unfold follows in Hf. rewrite H0 in Hf. destruct Hf as (Hi & Hx & Hy).
    destruct (IH c1 l Hc Hk) as (IHy & IHx & IHi).
    { intros j t Hj Ht. apply (Hrow (S j) t); [lia|exact Ht]. }
    repeat split; lia.
Qed.

(** A block without newline lies on one row, at consecutive columns. *)
Lemma block_positions (B : list Token) (k : nat) (b : Token) :
  chain B -> no_newline B -> B !! k = Some b ->
  tok_y b = tok_y (run_of B)
  /\ tok_x b = tok_x (run_of B) + Z.of_nat k
  /\ tok_i b = tok_i (run_of B) + Z.of_nat k.
Proof.
  intros Hc Hnl Hk. destruct B as [|c0 B]; [discriminate Hk|].
  simpl run_of. simpl tok_y. simpl tok_x. simpl tok_i.
  apply (row_positions k c0 B b Hc Hk).
  intros j t _ Ht. unfold no_newline in Hnl.
  rewrite Forall_forall in Hnl. apply Hnl.
  apply list_elem_of_lookup. eauto.
Qed.

(** The cell that follows a block without newline on the same chain. *)
Lemma after_block (B : list Token) (t : Token) (rest : list Token) :
  B <> [] -> chain (B ++ t :: rest) -> no_newline B ->
  tok_y t = tok_y (run_of B)
  /\ tok_x t = tok_x (run_of B) + Z.of_nat (length B)
  /\ tok_i t = tok_i (run_of B) + Z.of_nat (length B).
Proof.
  intros Hne Hc Hnl. destruct B as [|c0 B]; [congruence|].
  simpl run_of. simpl tok_y. simpl tok_x. simpl tok_i.
  apply (row_positions (length (c0 :: B)) c0 (B ++ t :: rest) t).
  - exact Hc.
  - change (c0 :: B ++ t :: rest) with ((c0 :: B) ++ t :: rest).
    rewrite lookup_app_r by lia.
    replace (length (c0 :: B) - length (c0 :: B))%nat with O by lia.
    reflexivity.
  - intros j u Hj Hu.
    change (c0 :: B ++ t :: rest) with ((c0 :: B) ++ t :: rest) in Hu.
    rewrite lookup_app_l in Hu by exact Hj.
    unfold no_newline in Hnl. rewrite Forall_forall in Hnl. apply Hnl.
    apply list_elem_of_lookup. eauto.
Qed.

(** ** Coalescer minimality *)

(** The first block: it starts with the run being collected, or else
    with a cell still to read. *)
Lemma blocks_head (ts cur B : list Token) (O : list (list Token)) :
  blocks cur ts = B :: O ->
  match cur with
  | _ :: _ => exists p, B = cur ++ p
  | [] => exists b p, B = b :: p /\ b ∈ ts
  end.
Proof.
  revert cur. induction ts as [|t ts IH]; intros cur H; simpl in H.
  - destruct cur as [|c0 cur]; simpl in H; [discriminate|].
    injection H as <- _. exists []. rewrite app_nil_r. reflexivity.
  - destruct (cell_newline t).
    + destruct cur as [|c0 cur]; simpl in H.
      * destruct (IH [] H) as (b & p & -> & Hb).
        exists b, p. split; [reflexivity|]. apply elem_of_cons. auto.
      * injection H as <- _. exists []. rewrite app_nil_r. reflexivity.
    + destruct (last cur) as [q|] eqn:Hl.
      * destruct cur as [|c0 cur]; [discriminate Hl|].
        destruct (Ui.style_differs _ _).
        -- injection H as <- _. exists []. rewrite app_nil_r. reflexivity.
        -- destruct (IH _ H) as [p ->]. exists (t :: p).
           rewrite <- app_assoc. reflexivity.
      * apply last_None in Hl. subst cur.
        destruct (IH _ H) as [p ->]. exists t, p.
        split; [reflexivity|]. apply elem_of_cons. auto.
Qed.

Lemma same_style_run (cur : list Token) (p : Token) :
  same_style cur -> last cur = Some p -> tok_style (run_of cur) = tok_style p.
Proof.
  intros Hs Hl. destruct cur as [|c0 cur]; [discriminate Hl|]. simpl.
  apply Hs; [apply elem_of_cons; auto|].
  apply last_Some in Hl as [l' Heq]. rewrite Heq. apply elem_of_app. right.
  apply list_elem_of_singleton. reflexivity.
Qed.

(** Blocks that follow each other are split by a row break or by a
    change of style. *)
Lemma blocks_sorted (ts cur : list Token) :
  chain (cur ++ ts) -> no_newline cur -> same_style cur ->
  Sorted split_by_style (blocks cur ts).
Proof.
  revert cur. induction ts as [|t ts IH]; intros cur Hc Hnl Hs; simpl.
  - destruct cur; simpl; repeat constructor.
  - destruct (cell_newline t) eqn:Ht.
    + assert (Hrest : Sorted split_by_style (blocks [] ts)).
      { apply IH; [|constructor|intros a b Ha; inversion Ha].
        apply chain_app_r in Hc. apply (chain_app_r [t]). exact Hc. }
      destruct cur as [|c0 cur]; simpl; [exact Hrest|].
      constructor; [exact Hrest|].
      destruct (blocks [] ts) as [|B O] eqn:HB; constructor.
      destruct (blocks_head ts [] B O HB) as (b & p & -> & Hb).
      intros Hy. exfalso.
      destruct (after_block (c0 :: cur) t ts) as (Hty & _ & _);
        [discriminate|exact Hc|exact Hnl|].
      apply chain_app_r in Hc.
      destruct (chain_rows ts t b Hc Hb) as [_ Hlt]. specialize (Hlt Ht).
      simpl in Hy, Hty. lia.
    + destruct (last cur) as [q|] eqn:Hl.
      * destruct (Ui.style_differs (tok_style q) (tok_style t)) eqn:Hd.
        -- assert (Hrest : Sorted split_by_style (blocks [t] ts)).
           { apply IH; [|constructor; [exact Ht|constructor]
                        |apply same_style_single].
             apply chain_app_r in Hc. exact Hc. }
           constructor; [exact Hrest|].
           destruct (blocks [t] ts) as [|B O] eqn:HB; constructor.
           destruct (blocks_head ts [t] B O HB) as [p ->].
           assert (Hne : cur <> []) by (intros ->; discriminate Hl).
           destruct (after_block cur t ts Hne Hc Hnl) as (Hty & Htx & Hti).
           intros _. simpl run_of. simpl tok_style. simpl tok_i. simpl tok_x.
           split; [|split; [exact Hti|exact Htx]].
           rewrite (same_style_run cur q Hs Hl). intros Heq.
           apply style_differs_false in Heq. congruence.
        -- apply style_differs_false in Hd. apply IH.
           ++ rewrite <- app_assoc. exact Hc.
           ++ apply Forall_app. split; [exact Hnl|].
              constructor; [exact Ht|constructor].
           ++ eapply same_style_snoc; eassumption.
      * apply last_None in Hl. subst cur. apply IH.
        -- exact Hc.
        -- constructor; [exact Ht|constructor].
        -- apply same_style_single.
Qed.

Lemma sorted_adjacent {A : Type} (R : A -> A -> Prop) (l l1 l2 : list A)
      (a b : A) :
  Sorted R l -> l = l1 ++ a :: b :: l2 -> R a b.
Proof.
  revert l. induction l1 as [|c l1 IH]; intros l Hs ->; simpl in Hs.
  - inversion Hs as [|? ? _ Hd]; subst. inversion Hd; subst. assumption.
  - inversion Hs as [|? ? Hs' _]; subst. eapply IH; [exact Hs'|reflexivity].
Qed.

Lemma run_of_text_length (cells B : list Token) :
  Forall one_char cells -> B ∈ blocks [] cells ->
  String.length (tok_text (run_of B)) = length B.
Proof.
  intros Hone HB.
  destruct (blocks_segments cells [] B) as (Hne & Hnl & _ & pre & post & Heq);
    [constructor | intros a b Ha; inversion Ha | exact HB |].
  simpl in Heq. rewrite Heq in Hone.
  apply Forall_app in Hone as [_ Hone]. apply Forall_app in Hone as [Hone _].
  destruct (block_text B Hone Hnl) as [Hlen _].
  destruct B as [|c0 B]; [congruence|]. exact Hlen.
Qed.

(** C4.  For the cells of any document with any styles on them: two
    runs that the coalescer emits one after the other on the same row
    differ in colour or in weight, and the second starts exactly where
    the first ends; so a run ends inside a row only where the style
    changes. *)
Theorem coalescer_minimal (docContents : string) (cells l1 l2 : list Token)
        (r1 r2 : Token) :
  map cell cells = map cell (g_tokens (Ui.tokenize docContents)) ->
  Ui.groupTokens cells = l1 ++ r1 :: r2 :: l2 ->
  tok_y r1 = tok_y r2 ->
  (color (tok_style r1) <> color (tok_style r2)
   \/ weight (tok_style r1) <> weight (tok_style r2))
  /\ tok_x r2 = tok_x r1 + Z.of_nat (String.length (tok_text r1))
  /\ tok_i r2 = tok_i r1 + Z.of_nat (String.length (tok_text r1)).
Proof.
  intros Hcells Hruns Hy.
  assert (Hchain : chain cells).
  { eapply chain_cells; [symmetry; exact Hcells|apply tokenize_chain]. }
  assert (Hone : Forall one_char cells).
  { eapply one_char_cells; [symmetry; exact Hcells|apply tokenize_one_char]. }
  rewrite groupTokens_blocks in Hruns.
  apply map_eq_app in Hruns as (O1 & O' & HO & _ & HO').
  apply map_eq_cons in HO' as (B1 & O'' & -> & Hr1 & HO'').
  apply map_eq_cons in HO'' as (B2 & O2 & -> & Hr2 & _).
  pose proof (blocks_sorted cells [] Hchain ltac:(constructor)
                ltac:(intros a b Ha; inversion Ha)) as Hsorted.
  pose proof (sorted_adjacent _ _ _ _ _ _ Hsorted HO) as Hsplit.
  assert (HB1 : B1 ∈ blocks [] cells).
  { rewrite HO. apply elem_of_app. right. apply elem_of_cons. auto. }
  rewrite <- Hr1, <- Hr2 in *.
  rewrite (run_of_text_length cells B1 Hone HB1).
  destruct (Hsplit Hy) as (Hstyle & Hi & Hx).
  split; [|split; assumption].
  destruct (tok_style (run_of B1)) as [c1 w1], (tok_style (run_of B2)) as [c2 w2].
  simpl. destruct (String.eqb_spec c1 c2) as [->|?]; [|auto].
  right. intros ->. apply Hstyle. reflexivity.
Qed.

Lemma coalescer_minimal_witness :
  (color (mkStyle "rgb(255, 0, 0)" "bold") <> color Ui.DEFAULT_STYLE
   \/ weight (mkStyle "rgb(255, 0, 0)" "bold") <> weight Ui.DEFAULT_STYLE)
  /\ 2 = 0 + Z.of_nat (String.length "ab")
  /\ 2 = 0 + Z.of_nat (String.length "ab").
Proof.
  apply (coalescer_minimal "abc"
           [mkToken 0 0 0 "a" (mkStyle "rgb(255, 0, 0)" "bold");
            mkToken 1 1 0 "b" (mkStyle "rgb(255, 0, 0)" "bold");
            mkToken 2 2 0 "c" Ui.DEFAULT_STYLE]
           [] []
           (mkToken 0 0 0 "ab" (mkStyle "rgb(255, 0, 0)" "bold"))
           (mkToken 2 2 0 "c" Ui.DEFAULT_STYLE));
    reflexivity.
Defined.

(** ** Positions identify cells *)

Lemma follows_before (a b : Token) : follows a b -> before a b.
Proof.
  unfold follows, before. intros [_ H].
  destruct (cell_newline a); [left|right]; lia.
Qed.

Lemma before_trans (a b c : Token) : before a b -> before b c -> before a c.
Proof. unfold before. lia. Qed.

Lemma chain_sorted (l : list Token) : chain l -> StronglySorted before l.
Proof.
  intros Hc. apply Sorted_StronglySorted.
  - intros a b c. apply before_trans.
  - induction l as [|a l IH]; [constructor|].
    destruct Hc as [Hf Hc]. constructor; [auto|].
    destruct l as [|b l]; constructor. apply follows_before, Hf.
Qed.

(** Two cells of a chain at the same row and column are the same cell. *)
Lemma position_inj (l : list Token) (a b : Token) :
  chain l -> a ∈ l -> b ∈ l ->
  tok_x a = tok_x b -> tok_y a = tok_y b -> a = b.
Proof.
  intros Hc. apply chain_sorted in Hc.
  induction Hc as [|c l Hs IH Hall]; intros Ha Hb Hx Hy.
  - apply elem_of_nil in Ha. contradiction.
  - rewrite Forall_forall in Hall.
    apply elem_of_cons in Ha as [->|Ha]; apply elem_of_cons in Hb as [->|Hb].
    + reflexivity.
    + specialize (Hall b Hb). unfold before in Hall. lia.
    + specialize (Hall a Ha). unfold before in Hall. lia.
    + auto.
Qed.

(** ** Every visible cell lies in exactly the runs that cover it *)

Lemma blocks_cover (ts cur : list Token) (c : Token) :
  c ∈ cur ++ ts -> cell_newline c = false ->
  exists B, B ∈ blocks cur ts /\ c ∈ B.
Proof.
  revert cur. induction ts as [|t ts IH]; intros cur Hc Hn; simpl.
  - rewrite app_nil_r in Hc. destruct cur as [|c0 cur].
    + apply elem_of_nil in Hc. contradiction.
    + eexists. split; [apply list_elem_of_singleton; reflexivity|exact Hc].
  - apply elem_of_app in Hc as [Hc|Hc].
    + (* a cell of the run being collected *)
      destruct (cell_newline t).
      * destruct cur as [|c0 cur]; [apply elem_of_nil in Hc; contradiction|].
        eexists. split; [|exact Hc]. apply elem_of_app. left.
        apply list_elem_of_singleton. reflexivity.
      * destruct (last cur) as [q|] eqn:Hl.
        -- destruct (Ui.style_differs _ _).
           ++ eexists. split; [|exact Hc]. apply elem_of_cons. auto.
           ++ apply IH; [|exact Hn]. apply elem_of_app. left.
              apply elem_of_app. auto.
        -- apply last_None in Hl. subst cur.
           apply elem_of_nil in Hc. contradiction.
    + destruct (cell_newline t) eqn:Ht.
      * apply elem_of_cons in Hc as [->|Hc]; [congruence|].
        destruct (IH [] Hc Hn) as (B & HB & HcB).
        exists B. split; [|exact HcB]. apply elem_of_app. auto.
      * destruct (last cur) as [q|] eqn:Hl.
        -- destruct (Ui.style_differs _ _).
           ++ destruct (IH [t] Hc Hn) as (B & HB & HcB).
              exists B. split; [|exact HcB]. apply elem_of_cons. auto.
           ++ apply IH; [|exact Hn]. rewrite <- app_assoc. simpl.
              apply elem_of_app. auto.
        -- apply IH; [exact Hc|exact Hn].
Qed.

Section Covering.
Variable cells : list Token.
Hypothesis Hchain : chain cells.
Hypothesis Hone : Forall one_char cells.

Lemma block_in_cells (B : list Token) :
  B ∈ blocks [] cells ->
  chain B /\ no_newline B /\ same_style B /\ B <> []
  /\ forall b, b ∈ B -> b ∈ cells.
Proof.
  intros HB.
  destruct (blocks_segments cells [] B) as (Hne & Hnl & Hs & pre & post & Heq);
    [constructor | intros a b Ha; inversion Ha | exact HB |].
  simpl in Heq. repeat split; try assumption.
  - pose proof Hchain as Hc. rewrite Heq in Hc.
    apply chain_app_r, chain_app_l in Hc. exact Hc.
  - intros b Hb. rewrite Heq. apply elem_of_app. right.
    apply elem_of_app. auto.
Qed.

Lemma covers_in_block (B : list Token) (c : Token) :
  B ∈ blocks [] cells -> c ∈ B -> Spec.covers (run_of B) c = true.
Proof.
  intros HB Hc.
  destruct (block_in_cells B HB) as (HcB & Hnl & _ & _ & _).
  apply list_elem_of_lookup in Hc as [k Hk].
  pose proof (lookup_lt_Some _ _ _ Hk) as Hlt.
  destruct (block_positions B k c HcB Hnl Hk) as (Hy & Hx & _).
  unfold Spec.covers. rewrite (run_of_text_length cells B Hone HB).
  rewrite !andb_true_iff, Z.eqb_eq, Z.leb_le, Z.ltb_lt. lia.
Qed.

Lemma covers_only_block (B : list Token) (c : Token) :
  B ∈ blocks [] cells -> c ∈ cells ->
  Spec.covers (run_of B) c = true -> c ∈ B.
Proof.
  intros HB Hc Hcov.
  destruct (block_in_cells B HB) as (HcB & Hnl & _ & _ & Hsub).
  unfold Spec.covers in Hcov.
  rewrite (run_of_text_length cells B Hone HB) in Hcov.
  rewrite !andb_true_iff, Z.eqb_eq, Z.leb_le, Z.ltb_lt in Hcov.
  destruct Hcov as [[Hy Hlo] Hhi].
  destruct (lookup_lt_is_Some_2 B (Z.to_nat (tok_x c - tok_x (run_of B))))
    as [b Hb]; [lia|].
  destruct (block_positions B _ b HcB Hnl Hb) as (Hby & Hbx & _).
  assert (Heq : c = b).
  { apply (position_inj cells); [exact Hchain|exact Hc| |lia|lia].
    apply Hsub. apply list_elem_of_lookup. eauto. }
  rewrite Heq. apply list_elem_of_lookup. eauto.
Qed.
End Covering.

(** ** Replaying the runs *)

Lemma replay_fold (runs cells : list Token) :
  fold_left Spec.replay_run runs cells = map (replay_cell runs) cells.
Proof.
  revert cells. induction runs as [|r runs IH]; intros cells; simpl.
  - symmetry. apply map_id.
  - rewrite IH. unfold Spec.replay_run. rewrite map_map. reflexivity.
Qed.

Lemma replay_cell_cell (runs : list Token) (c : Token) :
  cell (replay_cell runs c) = cell c.
Proof.
  revert c. induction runs as [|r runs IH]; intros c; [reflexivity|].
  simpl. unfold replay_cell in IH. rewrite IH.
  destruct (Spec.covers r c); reflexivity.
Qed.

Lemma replay_cell_untouched (runs : list Token) (c : Token) :
  (forall r, In r runs -> Spec.covers r c = false) -> replay_cell runs c = c.
Proof.
  induction runs as [|r runs IH]; intros H; [reflexivity|].
  simpl. rewrite (H r) by (left; reflexivity).
  apply IH. intros r' Hr'. apply H. right. exact Hr'.
Qed.

Lemma replay_cell_style (runs : list Token) (c : Token) (s : Style) :
  (forall r, In r runs -> Spec.covers r c = true -> tok_style r = s) ->
  (tok_style c = s \/ exists r, In r runs /\ Spec.covers r c = true) ->
  tok_style (replay_cell runs c) = s.
Proof.
  revert c. induction runs as [|r runs IH]; intros c Hall Hsome.
  - destruct Hsome as [H|(r & [] & _)]. exact H.
  - simpl. destruct (Spec.covers r c) eqn:Hcov.
    + apply IH.
      * intros r' Hr' Hc'. apply Hall; [right; exact Hr'|exact Hc'].
      * left. simpl. apply Hall; [left; reflexivity|exact Hcov].
    + apply IH.
      * intros r' Hr' Hc'. apply Hall; [right; exact Hr'|exact Hc'].
      * destruct Hsome as [H|(r' & [<-|Hr'] & Hc')]; [auto|congruence|eauto].
Qed.

Lemma token_eq (a b : Token) :
  cell a = cell b -> tok_style a = tok_style b -> a = b.
Proof.
  intros Hc Hs. apply cell_fields in Hc as (? & ? & ? & ?).
  destruct a, b; simpl in *; congruence.
Qed.

Lemma cells_from_default (cellStyle : Style) (s : string) (i x y : Z) :
  Forall (fun t => tok_style t = cellStyle) (cells_from cellStyle s i x y).
Proof.
  revert i x y. induction s as [|c s IH]; intros i x y; simpl; constructor.
  - reflexivity.
  - destruct (Ascii.eqb c NL); apply IH.
Qed.

Lemma restyle_cells (s : Style) (l1 l2 : list Token) :
  map cell l1 = map cell l2 -> Forall (fun t => tok_style t = s) l1 ->
  l1 = map (restyle s) l2.
Proof.
  revert l2. induction l1 as [|a l1 IH]; intros [|b l2] Heq H;
    try discriminate Heq; [reflexivity|].
  apply map_cell_cons in Heq as [Hab Htl].
  apply Forall_cons in H as [Ha Hl]. simpl. f_equal; [|auto].
  apply token_eq; [exact Hab|exact Ha].
Qed.

Lemma run_style (B : list Token) (c : Token) :
  same_style B -> c ∈ B -> tok_style (run_of B) = tok_style c.
Proof.
  intros Hs Hc. destruct B as [|c0 B]; [apply elem_of_nil in Hc; contradiction|].
  simpl. apply Hs; [apply elem_of_cons; auto|exact Hc].
Qed.

Lemma tokenize_default (docContents : string) :
  Forall (fun t => tok_style t = Ui.DEFAULT_STYLE)
         (g_tokens (Ui.tokenize docContents)).
Proof. unfold Ui.tokenize. rewrite grid_cells. apply cells_from_default. Qed.

(** Replaying the runs of styled cells over the freshly tokenized text
    gives every visible cell its style back and leaves the newline cells
    with the default style. *)
Lemma replay_grouped (docContents : string) (cells : list Token) :
  map cell cells = map cell (g_tokens (Ui.tokenize docContents)) ->
  fold_left Spec.replay_run (Ui.groupTokens cells)
            (g_tokens (Ui.tokenize docContents)) =
  map (fun c => if cell_newline c then restyle Ui.DEFAULT_STYLE c else c) cells.
Proof.
  intros Hcells.
  assert (Hchain : chain cells).
  { eapply chain_cells; [symmetry; exact Hcells|apply tokenize_chain]. }
  assert (Hone : Forall one_char cells).
  { eapply one_char_cells; [symmetry; exact Hcells|apply tokenize_one_char]. }
  rewrite replay_fold.
  rewrite (restyle_cells Ui.DEFAULT_STYLE (g_tokens (Ui.tokenize docContents))
             cells (eq_sym Hcells) (tokenize_default docContents)).
  rewrite map_map. apply map_ext_in. intros c Hc.
  apply list_elem_of_In in Hc. rewrite groupTokens_blocks.
  destruct (cell_newline c) eqn:Hn.
  - apply replay_cell_untouched. intros r Hr.
    apply in_map_iff in Hr as (B & <- & HB). apply list_elem_of_In in HB.
    destruct (Spec.covers (run_of B) (restyle Ui.DEFAULT_STYLE c)) eqn:Hcov;
      [|reflexivity].
    exfalso.
    pose proof (covers_only_block cells Hchain Hone B c HB Hc Hcov) as HcB.
    destruct (block_in_cells cells Hchain B HB) as (_ & Hnl & _).
    unfold no_newline in Hnl. rewrite Forall_forall in Hnl.
    specialize (Hnl c HcB). congruence.
  - apply token_eq; [rewrite replay_cell_cell; reflexivity|].
    apply replay_cell_style.
    + intros r Hr Hcov.
      apply in_map_iff in Hr as (B & <- & HB). apply list_elem_of_In in HB.
      pose proof (covers_only_block cells Hchain Hone B c HB Hc Hcov) as HcB.
      destruct (block_in_cells cells Hchain B HB) as (_ & _ & Hs & _).
      apply run_style; assumption.
    + right. destruct (blocks_cover cells [] c Hc Hn) as (B & HB & HcB).
      exists (run_of B). split.
      * apply in_map, list_elem_of_In, HB.
      * apply (covers_in_block cells Hchain Hone B c HB HcB).
Qed.

(** C1, the claim at a span that covers a newline: on the document
    "a\nb" with the one span (0, 3) the pipeline colours the newline
    cell too, and the replay of the posted message leaves that cell with
    the default style. *)
Lemma replay_round_trip_newline :
  exists msg cells cache',
    Ui.updateListener (fun _ => mkStyle "rgb(255, 0, 0)" "bold") ∅
                      [(0, 3, "comment")] ("a" +:+ LF +:+ "b") "JavaScript"
      = Some (msg, cache')
    /\ Ui.color_tokens (fun _ => mkStyle "rgb(255, 0, 0)" "bold")
                       [(0, 3, "comment")]
                       (g_tokens (Ui.tokenize ("a" +:+ LF +:+ "b"))) ∅
         = Some (cells, cache')
    /\ Spec.replay msg <> cells.
Proof.
  eexists _, _, _. split; [reflexivity|]. split; [reflexivity|].
  vm_compute. discriminate.
Qed.

(** C1, amended.  For every text and spans on which the listener posts a
    message: re-running the grid tokenizer on the message's text and
    replaying its runs by position gives back the grid the pipeline
    coloured, cell for cell in character and position, and in style for
    every cell that is not a newline; a newline cell comes back with the
    default style. *)
Theorem replay_round_trip (computed : string -> Style)
        (STYLE_CACHE : gmap string Style)
        (highlighting : list (Z * Z * string))
        (docContents languageName : string)
        (msg : Message) (cells : list Token) (cache' : gmap string Style) :
  Ui.updateListener computed STYLE_CACHE highlighting docContents languageName
    = Some (msg, cache') ->
  Ui.color_tokens computed highlighting (g_tokens (Ui.tokenize docContents))
                  STYLE_CACHE = Some (cells, cache') ->
  Spec.replay msg =
    map (fun c => if cell_newline c then restyle Ui.DEFAULT_STYLE c else c)
        cells
  /\ map cell (Spec.replay msg) = map cell cells
  /\ (forall (k : nat) (c : Token),
        cells !! k = Some c -> cell_newline c = false ->
        Spec.replay msg !! k = Some c).
Proof.
  intros Hmsg Hcol. unfold Ui.updateListener in Hmsg. rewrite Hcol in Hmsg.
  injection Hmsg as <-. unfold Spec.replay. cbn [text tokens].
  pose proof (color_tokens_cells _ _ _ _ _ _ Hcol) as Hcells.
  rewrite (replay_grouped docContents cells Hcells).
  split; [reflexivity|]. split.
  - rewrite map_map. apply map_ext. intros c.
    destruct (cell_newline c); reflexivity.
  - intros k c Hk Hn.
    change (map ?f cells) with (fmap (M:=list) f cells).
    rewrite list_lookup_fmap, Hk. simpl. rewrite Hn. reflexivity.
Qed.

Lemma replay_round_trip_witness :
  Spec.replay (mkMessage "text" 2 1 "ab"
                 [mkToken 0 0 0 "a" (mkStyle "rgb(255, 0, 0)" "bold");
                  mkToken 1 1 0 "b" Ui.DEFAULT_STYLE]
                 (Some "JavaScript")) =
  map (fun c => if cell_newline c then restyle Ui.DEFAULT_STYLE c else c)
      [mkToken 0 0 0 "a" (mkStyle "rgb(255, 0, 0)" "bold");
       mkToken 1 1 0 "b" Ui.DEFAULT_STYLE].
Proof.
  apply (replay_round_trip (fun _ => mkStyle "rgb(255, 0, 0)" "bold") ∅
           [(0, 1, "kw")] "ab" "JavaScript" _ _
           {["kw" := mkStyle "rgb(255, 0, 0)" "bold"]});
    reflexivity.
Defined.

(** ** The placeholder *)

(** C5, the claim at the constant placeholder string: [placeholderTokens]
    returns its twelve one-character tokens, where the pipeline with the
    run coalescer gives the single run "Type code...". *)
Lemma placeholder_not_coalesced :
  Widget.placeholderTokens Widget.PLACEHOLDER_TEXT None <>
    Spec.placeholder Widget.PLACEHOLDER_TEXT None
  /\ length (tokens (Widget.placeholderTokens Widget.PLACEHOLDER_TEXT None))
     = 12%nat
  /\ tokens (Spec.placeholder Widget.PLACEHOLDER_TEXT None) =
       [mkToken 0 0 0 "Type code..." Widget.placeholderStyle].
Proof.
  split; [|split; reflexivity].
  intros H. apply (f_equal (fun m => length (tokens m))) in H.
  vm_compute in H. discriminate H.
Qed.

(** C5, amended.  [placeholder(text, language?)] is the snapshot of the
    grid tokenizer with the fixed muted style on every cell, not passed
    through the run coalescer: width, height and text are the
    tokenizer's, the runs are the cells themselves, one one-character run
    per character of the text, all with the muted style; for the constant
    placeholder string none of them is a newline cell; the language is
    "JavaScript" when omitted.  The run coalescer applied to these runs
    gives the runs of the pipeline that the specification describes. *)
Theorem placeholder_cells (placeholderText : string) (lang : option string) :
  let m := Widget.placeholderTokens placeholderText lang in
  msg_type m = "text" /\ text m = placeholderText
  /\ width m = g_width (Ui.tokenize placeholderText)
  /\ height m = g_y (Ui.tokenize placeholderText) + 1
  /\ tokens m = map (restyle (mkStyle "rgb(128, 128, 128)" "normal"))
                    (g_tokens (Ui.tokenize placeholderText))
  /\ length (tokens m) = String.length placeholderText
  /\ Forall (fun r => exists c, tok_text r = String c "") (tokens m)
  /\ language m = Some (match lang with Some l => l | None => "JavaScript" end)
  /\ Ui.groupTokens (tokens m) = tokens (Spec.placeholder placeholderText lang)
  /\ Forall (fun r => cell_newline r = false)
            (tokens (Widget.placeholderTokens "Type code..." lang)).
Proof.
  cbn zeta. unfold Widget.placeholderTokens.
  cbn [msg_type text width height tokens language].
  repeat split.
  - unfold Ui.tokenize. rewrite !grid_width_rows. reflexivity.
  - unfold Ui.tokenize, grid. rewrite !grid_loop_y. reflexivity.
  - unfold Ui.tokenize. rewrite !grid_cells. apply cells_from_restyle.
  - unfold grid. rewrite grid_loop_length. reflexivity.
  - eapply Forall_impl; [apply (one_char_cells _ _ eq_refl)|].
    + rewrite grid_cells. apply cells_from_one_char. lia.
    + intros r [_ H]. exact H.
  - vm_compute. repeat constructor.
Qed.

(** * Further properties of the code *)

(** ** The grid loop: characters, indices and positions *)

Lemma combine_text_cells (cellStyle : Style) (s : string) (i x y : Z) :
  Ui.combine_text (cells_from cellStyle s i x y) = s.
Proof.
  rewrite combine_text_foldr. revert i x y.
  induction s as [|c s IH]; intros i x y; simpl; [reflexivity|].
  rewrite append_cons, append_nil_l. f_equal.
  destruct (Ascii.eqb c NL); apply IH.
Qed.

Lemma cells_from_lookup (cellStyle : Style) (s : string) (i x y : Z)
      (k : nat) (c : Token) :
  cells_from cellStyle s i x y !! k = Some c ->
  tok_i c = i + Z.of_nat k
  /\ exists ch, String.get k s = Some ch /\ tok_text c = String ch "".
Proof.
  revert i x y k. induction s as [|c0 s IH]; intros i x y k Hk.
  - discriminate Hk.
  - destruct k as [|k]; simpl in Hk.
    + injection Hk as <-. simpl. split; [lia|]. exists c0. auto.
    + assert (H : exists i' x' y',
                 i' = i + 1 /\ cells_from cellStyle s i' x' y' !! k = Some c).
      { destruct (Ascii.eqb c0 NL); eauto 6. }
      destruct H as (i' & x' & y' & -> & H).
      destruct (IH _ _ _ _ H) as (Hi & ch & Hg & Ht).
      split; [lia|]. exists ch. split; [exact Hg|exact Ht].
Qed.

Lemma cells_from_bounds (cellStyle : Style) (s : string) (i x y : Z) (c : Token) :
  0 <= x -> c ∈ cells_from cellStyle s i x y ->
  0 <= tok_x c <= reach x s
  /\ (cell_newline c = false -> tok_x c + 1 <= reach x s)
  /\ y <= tok_y c <= y + Z.of_nat (Spec.count_newlines s).
Proof.
  revert i x y. induction s as [|c0 s IH]; intros i x y Hx Hc; simpl in Hc.
  - apply elem_of_nil in Hc. contradiction.
  - simpl reach. simpl Spec.count_newlines.
    apply elem_of_cons in Hc as [->|Hc].
    + unfold cell_newline. simpl. rewrite is_newline_char.
      destruct (Ascii.eqb c0 NL).
      * pose proof (reach_ge 0 s). repeat split; try lia; try discriminate.
      * pose proof (reach_ge (x + 1) s). repeat split; lia.
    + destruct (Ascii.eqb c0 NL).
      * destruct (IH _ 0 _ ltac:(lia) Hc) as (H1 & H2 & H3).
        repeat split; try lia. intros Hn. specialize (H2 Hn). lia.
      * destruct (IH _ (x + 1) _ ltac:(lia) Hc) as (H1 & H2 & H3).
        repeat split; try lia. intros Hn. specialize (H2 Hn). lia.
Qed.

Lemma grid_width_reach (cellStyle : Style) (s : string) :
  g_width (grid cellStyle s) = reach 0 s.
Proof.
  unfold grid. rewrite grid_loop_width by (simpl; lia). simpl.
  pose proof (reach_ge 0 s). lia.
Qed.

(** X1.  For either copy of the grid loop and every text: the [k]-th
    token carries the index [k] and the [k]-th character of the text, and
    the texts of the tokens, concatenated in order, give the text back. *)
Theorem grid_text_round_trip (cellStyle : Style) (s : string) :
  Ui.combine_text (g_tokens (grid cellStyle s)) = s
  /\ forall (k : nat) (c : Token),
       g_tokens (grid cellStyle s) !! k = Some c ->
       tok_i c = Z.of_nat k
       /\ exists ch, String.get k s = Some ch /\ tok_text c = String ch "".
Proof.
  rewrite grid_cells. split; [apply combine_text_cells|].
  intros k c Hk. destruct (cells_from_lookup _ _ _ _ _ _ _ Hk) as [Hi H].
  split; [lia|exact H].
Qed.

Lemma grid_text_round_trip_witness :
  tok_i (mkToken 1 1 0 "b" Ui.DEFAULT_STYLE) = Z.of_nat 1
  /\ exists ch, String.get 1 "ab" = Some ch
                /\ tok_text (mkToken 1 1 0 "b" Ui.DEFAULT_STYLE) = String ch "".
Proof.
  apply (proj2 (grid_text_round_trip Ui.DEFAULT_STYLE "ab") 1%nat).
  reflexivity.
Defined.

(** X2.  For either copy of the grid loop and every text: every token
    lies inside the grid the loop reports, a character that is not a
    newline strictly left of [width] and every token above [height]; and
    no two tokens share a row and a column. *)
Theorem grid_positions (cellStyle : Style) (s : string) (c : Token) :
  c ∈ g_tokens (grid cellStyle s) ->
  0 <= tok_x c <= g_width (grid cellStyle s)
  /\ (cell_newline c = false -> tok_x c < g_width (grid cellStyle s))
  /\ 0 <= tok_y c < grid_height cellStyle s
  /\ forall c', c' ∈ g_tokens (grid cellStyle s) ->
                tok_x c' = tok_x c -> tok_y c' = tok_y c -> c' = c.
Proof.
  intros Hc. rewrite grid_width_reach. unfold grid_height, grid.
  rewrite grid_loop_y. simpl g_y. fold (grid cellStyle s).
  rewrite grid_cells in *.
  destruct (cells_from_bounds cellStyle s 0 0 0 c ltac:(lia) Hc)
    as (H1 & H2 & H3).
  split; [exact H1|]. split; [intros Hn; specialize (H2 Hn); lia|].
  split; [lia|].
  intros c' Hc' Hx Hy.
  apply (position_inj (cells_from cellStyle s 0 0 0));
    [apply cells_from_chain|assumption..].
Qed.

Lemma grid_positions_witness :
  0 <= 1 <= g_width (grid Ui.DEFAULT_STYLE "ab").
Proof.
  apply (grid_positions Ui.DEFAULT_STYLE "ab"
                        (mkToken 1 1 0 "b" Ui.DEFAULT_STYLE)).
  apply (list_elem_of_lookup_2 _ 1%nat). reflexivity.
Defined.

(** ** The style cache *)

Section Cache.
Variable computed : string -> Style.

Lemma getStyle_resolve (cache : gmap string Style) (label : string) :
  (Ui.getStyle computed cache label).1 = resolve computed cache label.
Proof.
  unfold Ui.getStyle, resolve. destruct (cache !! label); reflexivity.
Qed.

Lemma getStyle_cached (cache : gmap string Style) (label : string) :
  (Ui.getStyle computed cache label).2 !! label =
  Some (resolve computed cache label).
Proof.
  unfold Ui.getStyle, resolve. destruct (cache !! label) eqn:H; simpl.
  - exact H.
  - apply lookup_insert_eq.
Qed.

Lemma getStyle_other (cache : gmap string Style) (label other : string) :
  other <> label ->
  (Ui.getStyle computed cache label).2 !! other = cache !! other.
Proof.
  intros Hne. unfold Ui.getStyle. destruct (cache !! label); simpl.
  - reflexivity.
  - apply lookup_insert_ne. congruence.
Qed.

Lemma getStyle_subseteq (cache : gmap string Style) (label : string) :
  cache ⊆ (Ui.getStyle computed cache label).2.
Proof.
  unfold Ui.getStyle. destruct (cache !! label) eqn:H; simpl.
  - reflexivity.
  - apply insert_subseteq, H.
Qed.

Lemma getStyle_keeps_resolve (cache : gmap string Style) (label l : string) :
  resolve computed (Ui.getStyle computed cache label).2 l =
  resolve computed cache l.
Proof.
  destruct (decide (l = label)) as [->|Hne].
  - unfold resolve at 1. rewrite getStyle_cached. reflexivity.
  - unfold resolve. rewrite getStyle_other by exact Hne. reflexivity.
Qed.

Lemma color_range_cache n i classes tokens cache tokens' cache' :
  Ui.color_range computed n i classes tokens cache = Some (tokens', cache') ->
  cache ⊆ cache'
  /\ (forall l, resolve computed cache' l = resolve computed cache l)
  /\ ((0 < n)%nat -> cache' !! classes = Some (resolve computed cache classes))
  /\ (forall l, is_Some (cache' !! l) ->
                is_Some (cache !! l) \/ (l = classes /\ (0 < n)%nat)).
Proof.
  revert i tokens cache. induction n as [|n IH]; intros i tokens cache; simpl.
  - intros [= <- <-]. repeat split; auto; lia.
  - pose proof (getStyle_subseteq cache classes) as Hsub.
    pose proof (getStyle_cached cache classes) as Hc.
    pose proof (getStyle_keeps_resolve cache classes) as Hr.
    pose proof (getStyle_other cache classes) as Ho.
    destruct (Ui.getStyle computed cache classes) as [style cache1].
    simpl in Hsub, Hc, Hr, Ho.
    destruct (Ui.set_style tokens i style) as [tokens1|]; [|discriminate].
    intros H. destruct (IH _ _ _ H) as (IH1 & IH2 & _ & IH4).
    split; [etrans; eassumption|]. split; [|split].
    + intros l. rewrite IH2. apply Hr.
    + intros _. eapply lookup_weaken; eassumption.
    + intros l Hl. destruct (decide (l = classes)) as [->|Hne].
      * right. split; [reflexivity|lia].
      * destruct (IH4 l Hl) as [Hl1|[-> _]]; [|congruence].
        left. rewrite <- (Ho l Hne). exact Hl1.
Qed.

Lemma color_tokens_cache highlighting tokens cache tokens' cache' :
  Ui.color_tokens computed highlighting tokens cache = Some (tokens', cache') ->
  cache ⊆ cache'
  /\ (forall l, resolve computed cache' l = resolve computed cache l)
  /\ (forall from to l, In (from, to, l) highlighting -> from < to ->
                        cache' !! l = Some (resolve computed cache l))
  /\ (forall l, is_Some (cache' !! l) ->
                is_Some (cache !! l)
                \/ exists from to, In (from, to, l) highlighting /\ from < to).
Proof.
  revert tokens cache.
  induction highlighting as [|[[from to] classes] hl IH];
    intros tokens cache; simpl.
  - intros [= <- <-]. repeat split; auto. intros ? ? ? [].
  - destruct (Ui.color_range computed _ from classes tokens cache)
      as [[tokens1 cache1]|] eqn:Hr; [|discriminate].
    intros H. destruct (IH _ _ H) as (IH1 & IH2 & IH3 & IH4).
    destruct (color_range_cache _ _ _ _ _ _ _ Hr) as (R1 & R2 & R3 & R4).
    split; [etrans; eassumption|]. split; [|split].
    + intros l. rewrite IH2. apply R2.
    + intros f t l [[= <- <- <-]|Hin] Hlt.
      * eapply lookup_weaken; [|exact IH1]. apply R3. lia.
      * rewrite (IH3 f t l Hin Hlt). f_equal. apply R2.
    + intros l Hl. destruct (IH4 l Hl) as [Hl1|(f & t & Hin & Hlt)].
      * destruct (R4 l Hl1) as [Hl0|[-> Hn]]; [left; exact Hl0|].
        right. exists from, to. split; [left; reflexivity|lia].
      * right. exists f, t. split; [right; exact Hin|exact Hlt].
Qed.
End Cache.

(** X3.  A label is resolved once: after [getStyle] has answered for a
    class name, the name is in the cache with that answer, and asking
    again gives the same style and the same cache, whatever the browser
    would compute by then; the entries of the other class names are not
    touched; on a hit nothing is computed and nothing changes. *)
Theorem getStyle_stable (computed computed' : string -> Style)
        (STYLE_CACHE : gmap string Style) (className : string) :
  let style := (Ui.getStyle computed STYLE_CACHE className).1 in
  let cache1 := (Ui.getStyle computed STYLE_CACHE className).2 in
  Ui.getStyle computed' cache1 className = (style, cache1)
  /\ cache1 !! className = Some style
  /\ (forall other, other <> className ->
                    cache1 !! other = STYLE_CACHE !! other)
  /\ (forall cached, STYLE_CACHE !! className = Some cached ->
                     style = cached /\ cache1 = STYLE_CACHE)
  /\ (STYLE_CACHE !! className = None -> style = computed className).
Proof.
  cbn zeta. rewrite getStyle_resolve.
  pose proof (getStyle_cached computed STYLE_CACHE className) as Hc.
  split; [|split; [exact Hc|split; [|split]]].
  - unfold Ui.getStyle at 1. rewrite Hc. reflexivity.
  - intros other. apply getStyle_other.
  - intros cached H. unfold resolve, Ui.getStyle. rewrite H. auto.
  - intros H. unfold resolve. rewrite H. reflexivity.
Qed.

Lemma getStyle_stable_witness :
  (Ui.getStyle (fun _ => mkStyle "red" "bold")
               {["kw" := mkStyle "blue" "400"]} "kw").1 = mkStyle "blue" "400"
  /\ (Ui.getStyle (fun _ => mkStyle "red" "bold")
                  {["kw" := mkStyle "blue" "400"]} "kw").2 =
       {["kw" := mkStyle "blue" "400"]}.
Proof.
  apply (proj1 (proj2 (proj2 (proj2
           (getStyle_stable (fun _ => mkStyle "red" "bold")
                            (fun _ => mkStyle "red" "bold")
                            {["kw" := mkStyle "blue" "400"]} "kw"))))).
  reflexivity.
Defined.

(** X4.  A run of the update listener only adds to the style cache: the
    entries it found are kept, every label keeps the style it resolves
    to, the label of every non-empty span is cached afterwards, and
    nothing else is. *)
Theorem listener_cache_grows (computed : string -> Style)
        (STYLE_CACHE : gmap string Style)
        (highlighting : list (Z * Z * string))
        (docContents languageName : string)
        (msg : Message) (cache' : gmap string Style) :
  Ui.updateListener computed STYLE_CACHE highlighting docContents languageName
    = Some (msg, cache') ->
  STYLE_CACHE ⊆ cache'
  /\ (forall l, resolve computed cache' l = resolve computed STYLE_CACHE l)
  /\ (forall from to l, In (from, to, l) highlighting -> from < to ->
                        cache' !! l = Some (resolve computed STYLE_CACHE l))
  /\ (forall l, is_Some (cache' !! l) ->
                is_Some (STYLE_CACHE !! l)
                \/ exists from to, In (from, to, l) highlighting /\ from < to).
Proof.
  unfold Ui.updateListener.
  destruct (Ui.color_tokens computed highlighting _ STYLE_CACHE)
    as [[cells cache1]|] eqn:Hc; [|discriminate].
  intros [= _ <-]. eapply color_tokens_cache, Hc.
Qed.

Lemma listener_cache_grows_witness :
  ({["str" := mkStyle "blue" "400"]} : gmap string Style)
    ⊆ {["kw" := mkStyle "red" "bold"; "str" := mkStyle "blue" "400"]}.
Proof.
  apply (listener_cache_grows (fun _ => mkStyle "red" "bold")
           {["str" := mkStyle "blue" "400"]} [(0, 1, "kw")] "ab" "JavaScript"
           (mkMessage "text" 2 1 "ab"
              [mkToken 0 0 0 "a" (mkStyle "red" "bold");
               mkToken 1 1 0 "b" Ui.DEFAULT_STYLE]
              (Some "JavaScript"))).
  vm_compute. reflexivity.
Defined.

(** ** The span applier: when it fails and what it writes *)

Section Spans.
Variable computed : string -> Style.

Lemma color_range_inv n i classes tokens cache r :
  Ui.color_range computed n i classes tokens cache = Some r ->
  n = O \/ (0 <= i /\ i + Z.of_nat n <= Z.of_nat (length tokens)).
Proof.
  revert i tokens cache. induction n as [|n IH]; intros i tokens cache; simpl.
  - auto.
  - destruct (Ui.getStyle computed cache classes) as [style cache1].
    destruct (Ui.set_style tokens i style) as [tokens1|] eqn:Hs; [|discriminate].
    intros H. right.
    assert (Hi : 0 <= i < Z.of_nat (length tokens)).
    { destruct (Z.ltb_spec i 0) as [Hneg|Hpos].
      - rewrite (proj2 (set_style_None tokens i style)) in Hs by lia.
        discriminate.
      - destruct (Z.ltb_spec i (Z.of_nat (length tokens))); [lia|].
        rewrite (proj2 (set_style_None tokens i style)) in Hs by lia.
        discriminate. }
    apply set_style_cells in Hs. apply (f_equal length) in Hs.
    rewrite !length_map in Hs.
    destruct (IH _ _ _ H) as [->|[_ Hn]]; lia.
Qed.

Lemma color_tokens_iff highlighting tokens cache :
  is_Some (Ui.color_tokens computed highlighting tokens cache) <->
  Forall (span_ok (length tokens)) highlighting.
Proof.
  revert tokens cache.
  induction highlighting as [|[[from to] classes] hl IH];
    intros tokens cache; simpl.
  - split; [constructor|eauto].
  - destruct (Ui.color_range computed _ from classes tokens cache)
      as [[tokens1 cache1]|] eqn:Hr.
    + pose proof (color_range_cells _ _ _ _ _ _ _ _ Hr) as Hlen.
      apply (f_equal length) in Hlen. rewrite !length_map in Hlen.
      rewrite IH, Hlen. split.
      * intros H. constructor; [|exact H].
        intros Hlt. simpl in *.
        destruct (color_range_inv _ _ _ _ _ _ Hr) as [H0|H1]; lia.
      * intros H. inversion H; assumption.
    + split; [intros [? ?]; discriminate|].
      intros H. inversion H as [|? ? Hok _]; subst. exfalso.
      unfold span_ok in Hok. simpl in Hok.
      destruct (Z.ltb_spec from to) as [Hlt|Hge].
      * destruct (color_range_Some computed (Z.to_nat (to - from)) from
                    classes tokens cache) as (? & ? & Heq); [lia|lia|].
        congruence.
      * replace (Z.to_nat (to - from)) with O in Hr by lia. discriminate Hr.
Qed.

Lemma set_style_lookup tokens i style tokens' (k : nat) (t : Token) :
  Ui.set_style tokens i style = Some tokens' -> tokens !! k = Some t ->
  tokens' !! k = Some (if Z.of_nat k =? i then restyle style t else t).
Proof.
  unfold Ui.set_style. destruct (Z.ltb_spec i 0); [discriminate|].
  destruct (tokens !! Z.to_nat i) as [ti|] eqn:Hi; [|discriminate].
  intros [= <-] Hk. destruct (Z.eqb_spec (Z.of_nat k) i) as [Heq|Hne].
  - assert (Hki : Z.to_nat i = k) by lia. rewrite Hki in *.
    rewrite list_lookup_insert_eq by (eapply lookup_lt_Some; eassumption).
    rewrite Hk in Hi. injection Hi as <-. reflexivity.
  - rewrite list_lookup_insert_ne by lia. exact Hk.
Qed.

Lemma color_range_lookup n i classes tokens cache tokens' cache'
      (k : nat) (t : Token) :
  Ui.color_range computed n i classes tokens cache = Some (tokens', cache') ->
  tokens !! k = Some t ->
  tokens' !! k =
  Some (if (i <=? Z.of_nat k) && (Z.of_nat k <? i + Z.of_nat n)
        then restyle (resolve computed cache classes) t else t).
Proof.
  revert i tokens cache t. induction n as [|n IH]; intros i tokens cache t; simpl.
  - intros [= <- <-] Hk. rewrite Hk.
    destruct (Z.leb_spec i (Z.of_nat k));
      destruct (Z.ltb_spec (Z.of_nat k) (i + Z.of_nat 0));
      simpl; try reflexivity; lia.
  - pose proof (getStyle_resolve computed cache classes) as Hs.
    pose proof (getStyle_keeps_resolve computed cache classes classes) as Hr.
    destruct (Ui.getStyle computed cache classes) as [style cache1].
    simpl in Hs, Hr. subst style.
    destruct (Ui.set_style tokens i _) as [tokens1|] eqn:Hset; [|discriminate].
    intros H Hk.
    pose proof (set_style_lookup _ _ _ _ k t Hset Hk) as Hk1.
    rewrite (IH _ _ _ _ H Hk1), Hr. f_equal.
    destruct (Z.eqb_spec (Z.of_nat k) i);
      destruct (Z.leb_spec (i + 1) (Z.of_nat k));
      destruct (Z.ltb_spec (Z.of_nat k) (i + 1 + Z.of_nat n));
      destruct (Z.leb_spec i (Z.of_nat k));
      destruct (Z.ltb_spec (Z.of_nat k) (i + Z.of_nat (S n)));
      simpl; try reflexivity; lia.
Qed.

Lemma color_tokens_lookup highlighting tokens cache tokens' cache'
      (k : nat) (t : Token) :
  Ui.color_tokens computed highlighting tokens cache = Some (tokens', cache') ->
  tokens !! k = Some t ->
  tokens' !! k =
  Some (match last_label highlighting (Z.of_nat k) with
        | Some label => restyle (resolve computed cache label) t
        | None => t
        end).
Proof.
  revert tokens cache t.
  induction highlighting as [|[[from to] classes] hl IH];
    intros tokens cache t; simpl.
  - intros [= <- <-] Hk. exact Hk.
  - destruct (Ui.color_range computed _ from classes tokens cache)
      as [[tokens1 cache1]|] eqn:Hr; [|discriminate].
    intros H Hk.
    pose proof (color_range_lookup _ _ _ _ _ _ _ k t Hr Hk) as Hk1.
    destruct (color_range_cache _ _ _ _ _ _ _ _ Hr) as (_ & Hres & _).
    rewrite (IH _ _ _ H Hk1). f_equal.
    destruct (last_label hl (Z.of_nat k)) as [label|].
    + rewrite Hres. destruct (_ && _); reflexivity.
    + destruct (Z.leb_spec from (Z.of_nat k));
        destruct (Z.ltb_spec (Z.of_nat k) to);
        destruct (Z.ltb_spec (Z.of_nat k) (from + Z.of_nat (Z.to_nat (to - from))));
        simpl; try reflexivity; lia.
Qed.
End Spans.

(** X5.  The listener posts its message exactly when every span that is
    not empty lies within the document: a span with [from >= to] is
    skipped whatever its bounds, and one span with [from < to] that
    starts below 0 or ends past the length makes the whole update fail,
    so that nothing is posted. *)
Theorem listener_posts_iff (computed : string -> Style)
        (STYLE_CACHE : gmap string Style)
        (highlighting : list (Z * Z * string))
        (docContents languageName : string) :
  is_Some (Ui.updateListener computed STYLE_CACHE highlighting docContents
                             languageName)
  <-> Forall (fun h : Z * Z * string =>
                h.1.1 < h.1.2 ->
                0 <= h.1.1 /\ h.1.2 <= Z.of_nat (String.length docContents))
             highlighting.
Proof.
  assert (Hlen : length (g_tokens (Ui.tokenize docContents)) =
                 String.length docContents).
  { unfold Ui.tokenize, grid. rewrite grid_loop_length. reflexivity. }
  pose proof (color_tokens_iff computed highlighting
                (g_tokens (Ui.tokenize docContents)) STYLE_CACHE) as Hiff.
  rewrite Hlen in Hiff. unfold span_ok in Hiff. rewrite <- Hiff.
  unfold Ui.updateListener.
  destruct (Ui.color_tokens computed highlighting _ STYLE_CACHE)
    as [[cells cache1]|]; split; intros [? H]; try discriminate; eauto.
Qed.

(** X6.  Spans are applied in order and the last one wins: when the span
    loop ends normally, the token at offset [k] carries the style
    resolved for the label of the last span containing [k], and is
    unchanged when no span contains [k]; its index, position and
    character are never changed. *)
Theorem span_applier_last_write_wins (computed : string -> Style)
        (STYLE_CACHE : gmap string Style)
        (highlighting : list (Z * Z * string))
        (tokens tokens' : list Token) (cache' : gmap string Style)
        (k : nat) (t : Token) :
  Ui.color_tokens computed highlighting tokens STYLE_CACHE
    = Some (tokens', cache') ->
  tokens !! k = Some t ->
  tokens' !! k =
  Some (match last_label highlighting (Z.of_nat k) with
        | Some label =>
            mkToken (tok_i t) (tok_x t) (tok_y t) (tok_text t)
                    (resolve computed STYLE_CACHE label)
        | None => t
        end).
Proof. apply color_tokens_lookup. Qed.

Lemma span_applier_last_write_wins_witness :
  [mkToken 0 0 0 "a" (mkStyle "red" "bold");
   mkToken 1 1 0 "b" (mkStyle "blue" "400")] !! 1%nat =
  Some (match last_label [(0, 2, "kw"); (1, 2, "str")] (Z.of_nat 1) with
        | Some label =>
            mkToken 1 1 0 "b"
                    (resolve (fun l => if String.eqb l "kw"
                                       then mkStyle "red" "bold"
                                       else mkStyle "blue" "400") ∅ label)
        | None => mkToken 1 1 0 "b" Ui.DEFAULT_STYLE
        end).
Proof.
  apply (span_applier_last_write_wins
           (fun l => if String.eqb l "kw" then mkStyle "red" "bold"
                     else mkStyle "blue" "400")
           ∅ [(0, 2, "kw"); (1, 2, "str")]
           (g_tokens (Ui.tokenize "ab")) _
           {["kw" := mkStyle "red" "bold"; "str" := mkStyle "blue" "400"]}
           1%nat (mkToken 1 1 0 "b" Ui.DEFAULT_STYLE)).
  - vm_compute. reflexivity.
  - reflexivity.
Defined.

(** ** The runs and the document text *)

Lemma combine_text_app (l1 l2 : list Token) :
  Ui.combine_text (l1 ++ l2) = Ui.combine_text l1 +:+ Ui.combine_text l2.
Proof.
  rewrite !combine_text_foldr.
  induction l1 as [|t l1 IH]; simpl; [reflexivity|].
  rewrite IH, append_assoc. reflexivity.
Qed.

Lemma combine_text_cons (t : Token) (l : list Token) :
  Ui.combine_text (t :: l) = tok_text t +:+ Ui.combine_text l.
Proof. rewrite !combine_text_foldr. reflexivity. Qed.

Lemma run_of_text (B : list Token) : tok_text (run_of B) = Ui.combine_text B.
Proof. destruct B; reflexivity. Qed.

Lemma combine_text_runs (Bs : list (list Token)) :
  Ui.combine_text (map run_of Bs) = Ui.combine_text (concat Bs).
Proof.
  induction Bs as [|B Bs IH]; [reflexivity|].
  simpl. rewrite combine_text_cons, combine_text_app, run_of_text, IH.
  reflexivity.
Qed.

Lemma blocks_concat (ts cur : list Token) :
  concat (blocks cur ts) =
  cur ++ List.filter (fun t => negb (cell_newline t)) ts.
Proof.
  revert cur. induction ts as [|t ts IH]; intros cur; simpl.
  - destruct cur; simpl; rewrite ?app_nil_r; reflexivity.
  - destruct (cell_newline t) eqn:Ht; simpl.
    + rewrite concat_app, IH. destruct cur; simpl; rewrite ?app_nil_r;
        reflexivity.
    + destruct (last cur) as [p|] eqn:Hl.
      * destruct (Ui.style_differs _ _); simpl; rewrite IH.
        -- reflexivity.
        -- rewrite <- app_assoc. reflexivity.
      * apply last_None in Hl. subst cur. rewrite IH. reflexivity.
Qed.

Lemma combine_text_same_cells (l1 l2 : list Token) :
  map cell l1 = map cell l2 -> Ui.combine_text l1 = Ui.combine_text l2.
Proof.
  revert l2. induction l1 as [|a l1 IH]; intros [|b l2] Heq;
    try discriminate Heq; [reflexivity|].
  apply map_cell_cons in Heq as [Hab Htl].
  apply cell_fields in Hab as (_ & _ & _ & Ht).
  rewrite !combine_text_cons, Ht, (IH l2 Htl). reflexivity.
Qed.

Lemma visible_same_cells (l1 l2 : list Token) :
  map cell l1 = map cell l2 ->
  map cell (List.filter (fun t => negb (cell_newline t)) l1) =
  map cell (List.filter (fun t => negb (cell_newline t)) l2).
Proof.
  revert l2. induction l1 as [|a l1 IH]; intros [|b l2] Heq;
    try discriminate Heq; [reflexivity|].
  apply map_cell_cons in Heq as [Hab Htl]. simpl.
  assert (Hn : cell_newline a = cell_newline b).
  { apply cell_fields in Hab as (_ & _ & _ & Ht).
    unfold cell_newline. rewrite Ht. reflexivity. }
  rewrite Hn. destruct (cell_newline b); simpl; [auto|].
  rewrite Hab. f_equal. auto.
Qed.

Lemma visible_cells_text (cellStyle : Style) (s : string) (i x y : Z) :
  Ui.combine_text (List.filter (fun t => negb (cell_newline t))
                               (cells_from cellStyle s i x y)) =
  without_newlines s.
Proof.
  revert i x y. induction s as [|c s IH]; intros i x y; [reflexivity|].
  simpl. unfold cell_newline at 1. simpl tok_text. rewrite is_newline_char.
  destruct (Ascii.eqb c NL); simpl.
  - apply IH.
  - rewrite combine_text_cons. simpl tok_text.
    rewrite append_cons, append_nil_l. f_equal. apply IH.
Qed.

(** The values the listener's message is made of. *)
Lemma listener_message (computed : string -> Style)
      (STYLE_CACHE : gmap string Style) (highlighting : list (Z * Z * string))
      (docContents languageName : string) (msg : Message)
      (cache' : gmap string Style) :
  Ui.updateListener computed STYLE_CACHE highlighting docContents languageName
    = Some (msg, cache') ->
  exists cells,
    map cell cells = map cell (g_tokens (Ui.tokenize docContents))
    /\ chain cells /\ Forall one_char cells
    /\ msg = mkMessage "text" (g_width (Ui.tokenize docContents))
                       (g_y (Ui.tokenize docContents) + 1) docContents
                       (map run_of (blocks [] cells)) (Some languageName).
Proof.
  unfold Ui.updateListener.
  destruct (Ui.color_tokens computed highlighting _ STYLE_CACHE)
    as [[cells cache1]|] eqn:Hc; [|discriminate].
  intros [= <- _]. exists cells.
  pose proof (color_tokens_cells _ _ _ _ _ _ Hc) as Hcells.
  split; [exact Hcells|]. split; [|split].
  - eapply chain_cells; [symmetry; exact Hcells|apply tokenize_chain].
  - eapply one_char_cells; [symmetry; exact Hcells|apply tokenize_one_char].
  - rewrite groupTokens_blocks. reflexivity.
Qed.

(** X7.  The runs of a posted message lose no character: their texts,
    concatenated in order, are the document without its newline
    characters. *)
Theorem runs_keep_the_text (computed : string -> Style)
        (STYLE_CACHE : gmap string Style)
        (highlighting : list (Z * Z * string))
        (docContents languageName : string)
        (msg : Message) (cache' : gmap string Style) :
  Ui.updateListener computed STYLE_CACHE highlighting docContents languageName
    = Some (msg, cache') ->
  Ui.combine_text (tokens msg) = without_newlines docContents.
Proof.
  intros H. destruct (listener_message _ _ _ _ _ _ _ H)
    as (cells & Hcells & _ & _ & ->).
  cbn [tokens]. rewrite combine_text_runs, blocks_concat. simpl.
  rewrite (combine_text_same_cells _ _ (visible_same_cells _ _ Hcells)).
  unfold Ui.tokenize. rewrite grid_cells. apply visible_cells_text.
Qed.

Lemma runs_keep_the_text_witness :
  Ui.combine_text [mkToken 0 0 0 "a" (mkStyle "red" "bold");
                   mkToken 2 0 1 "b" (mkStyle "red" "bold")] =
  without_newlines ("a" +:+ LF +:+ "b").
Proof.
  apply (runs_keep_the_text (fun _ => mkStyle "red" "bold") ∅
           [(0, 3, "comment")] ("a" +:+ LF +:+ "b") "JavaScript"
           (mkMessage "text" 1 2 ("a" +:+ LF +:+ "b")
              [mkToken 0 0 0 "a" (mkStyle "red" "bold");
               mkToken 2 0 1 "b" (mkStyle "red" "bold")]
              (Some "JavaScript"))
           {["comment" := mkStyle "red" "bold"]}).
  vm_compute. reflexivity.
Defined.

Lemma combine_text_length (l : list Token) :
  Forall one_char l -> String.length (Ui.combine_text l) = length l.
Proof.
  induction l as [|t l IH]; intros H; [reflexivity|].
  apply Forall_cons in H as [[_ [c Hc]] Hl].
  rewrite combine_text_cons, Hc, append_cons, append_nil_l. simpl.
  rewrite IH by exact Hl. reflexivity.
Qed.

Lemma same_cells_lookup (l1 l2 : list Token) (k : nat) (c : Token) :
  map cell l1 = map cell l2 -> l1 !! k = Some c ->
  exists c0, l2 !! k = Some c0 /\ cell c0 = cell c.
Proof.
  revert l2 k. induction l1 as [|a l1 IH]; intros [|b l2] k Heq Hk;
    try discriminate Heq; [discriminate Hk|].
  apply map_cell_cons in Heq as [Hab Htl]. destruct k as [|k]; simpl in *.
  - injection Hk as <-. exists b. auto.
  - eauto.
Qed.

Lemma same_cells_elem (l1 l2 : list Token) (c : Token) :
  map cell l1 = map cell l2 -> c ∈ l1 ->
  exists c0, c0 ∈ l2 /\ cell c0 = cell c.
Proof.
  intros Heq Hc. apply list_elem_of_lookup in Hc as [k Hk].
  destruct (same_cells_lookup _ _ _ _ Heq Hk) as (c0 & H0 & Hcell).
  exists c0. split; [|exact Hcell]. apply list_elem_of_lookup. eauto.
Qed.

(** The [k]-th of the coloured cells still carries the index [k]. *)
Lemma coloured_index (docContents : string) (cells : list Token)
      (k : nat) (c : Token) :
  map cell cells = map cell (g_tokens (Ui.tokenize docContents)) ->
  cells !! k = Some c -> tok_i c = Z.of_nat k.
Proof.
  intros Heq Hk.
  destruct (same_cells_lookup _ _ _ _ Heq Hk) as (c0 & H0 & Hcell).
  apply cell_fields in Hcell as (Hi & _).
  unfold Ui.tokenize in H0. rewrite grid_cells in H0.
  apply cells_from_lookup in H0 as [H0 _]. lia.
Qed.

(** X8.  Every run of a posted message is a piece of the document: its
    text is the substring of the document that starts at the run's
    index. *)
Theorem run_is_substring (computed : string -> Style)
        (STYLE_CACHE : gmap string Style)
        (highlighting : list (Z * Z * string))
        (docContents languageName : string)
        (msg : Message) (cache' : gmap string Style) (r : Token) :
  Ui.updateListener computed STYLE_CACHE highlighting docContents languageName
    = Some (msg, cache') ->
  In r (tokens msg) ->
  exists before after : string,
    docContents = before +:+ tok_text r +:+ after
    /\ tok_i r = Z.of_nat (String.length before).
Proof.
  intros H Hr. destruct (listener_message _ _ _ _ _ _ _ H)
    as (cells & Hcells & Hchain & Hone & ->).
  cbn [tokens] in Hr. apply in_map_iff in Hr as (B & <- & HB).
  apply list_elem_of_In in HB.
  destruct (blocks_segments cells [] B) as (Hne & _ & _ & pre & post & Heq);
    [constructor | intros a b Ha; inversion Ha | exact HB |].
  simpl in Heq.
  exists (Ui.combine_text pre), (Ui.combine_text post).
  rewrite run_of_text, <- !combine_text_app, <- Heq. split.
  - rewrite (combine_text_same_cells _ _ Hcells).
    unfold Ui.tokenize. rewrite grid_cells, combine_text_cells. reflexivity.
  - rewrite combine_text_length.
    + destruct B as [|c0 B]; [congruence|]. simpl.
      apply (coloured_index docContents cells); [exact Hcells|].
      rewrite Heq, lookup_app_r by lia.
      replace (length pre - length pre)%nat with O by lia. reflexivity.
    + rewrite Heq in Hone. apply Forall_app in Hone as [Hone _]. exact Hone.
Qed.

Lemma run_is_substring_witness :
  exists before after : string,
    "a" +:+ LF +:+ "b" = before +:+ "b" +:+ after
    /\ 2 = Z.of_nat (String.length before).
Proof.
  apply (run_is_substring (fun _ => mkStyle "red" "bold") ∅
           [(0, 3, "comment")] ("a" +:+ LF +:+ "b") "JavaScript"
           (mkMessage "text" 1 2 ("a" +:+ LF +:+ "b")
              [mkToken 0 0 0 "a" (mkStyle "red" "bold");
               mkToken 2 0 1 "b" (mkStyle "red" "bold")]
              (Some "JavaScript"))
           {["comment" := mkStyle "red" "bold"]}
           (mkToken 2 0 1 "b" (mkStyle "red" "bold"))).
  - vm_compute. reflexivity.
  - right. left. reflexivity.
Defined.

(** ** The order of the runs *)

Lemma ssorted_app_elem {A : Type} (R : A -> A -> Prop) (l1 l2 : list A) (a b : A) :
  StronglySorted R (l1 ++ l2) -> a ∈ l1 -> b ∈ l2 -> R a b.
Proof.
  induction l1 as [|c l1 IH]; intros Hs Ha Hb.
  - apply elem_of_nil in Ha. contradiction.
  - simpl in Hs. inversion Hs as [|? ? Hs' Hall]; subst.
    apply elem_of_cons in Ha as [->|Ha]; [|auto].
    rewrite Forall_forall in Hall. apply Hall. apply elem_of_app. auto.
Qed.

Lemma ssorted_app_r {A : Type} (R : A -> A -> Prop) (l1 l2 : list A) :
  StronglySorted R (l1 ++ l2) -> StronglySorted R l2.
Proof.
  induction l1 as [|c l1 IH]; intros Hs; [exact Hs|].
  simpl in Hs. inversion Hs; subst. auto.
Qed.

Lemma ssorted_filter {A : Type} (R : A -> A -> Prop) (f : A -> bool) (l : list A) :
  StronglySorted R l -> StronglySorted R (List.filter f l).
Proof.
  induction 1 as [|c l Hs IH Hall]; simpl; [constructor|].
  destruct (f c); [|exact IH]. constructor; [exact IH|].
  apply List.Forall_forall. intros x Hx. apply filter_In in Hx as [Hx _].
  rewrite List.Forall_forall in Hall. auto.
Qed.

Lemma chain_index_sorted (l : list Token) :
  chain l -> StronglySorted (fun a b => tok_i a < tok_i b) l.
Proof.
  intros Hc. apply Sorted_StronglySorted.
  - intros a b c. lia.
  - induction l as [|a l IH]; [constructor|].
    destruct Hc as [Hf Hc]. constructor; [auto|].
    destruct l as [|b l]; constructor. destruct Hf as [Hi _]. lia.
Qed.

Lemma chain_index (k : nat) (c0 : Token) (l : list Token) (b : Token) :
  chain (c0 :: l) -> (c0 :: l) !! k = Some b ->
  tok_i b = tok_i c0 + Z.of_nat k.
Proof.
  revert c0 l. induction k as [|k IH]; intros c0 l Hc Hk.
  - injection Hk as <-. lia.
  - destruct l as [|c1 l]; [discriminate Hk|].
    destruct Hc as [[Hi _] Hc]. simpl in Hk.
    rewrite (IH c1 l Hc Hk). lia.
Qed.

(** Blocks whose cells are in index order are themselves in order, each
    ending before the next starts. *)
Lemma blocks_in_order (Bs : list (list Token)) :
  StronglySorted (fun a b => tok_i a < tok_i b) (concat Bs) ->
  Forall (fun B => B <> [] /\ chain B /\ Forall one_char B) Bs ->
  StronglySorted run_before (map run_of Bs).
Proof.
  induction Bs as [|B Bs IH]; intros Hs Hall; [constructor|].
  apply Forall_cons in Hall as [(Hne & HcB & HoB) Hall].
  simpl in Hs. simpl. constructor.
  - apply IH; [|exact Hall]. eapply ssorted_app_r, Hs.
  - apply List.Forall_forall. intros r Hr.
    apply in_map_iff in Hr as (B2 & <- & HB2).
    rewrite Forall_forall in Hall.
    destruct (Hall B2 ltac:(apply list_elem_of_In; exact HB2)) as (Hne2 & _).
    destruct B2 as [|b2 B2]; [congruence|].
    destruct (lookup_lt_is_Some_2 B (length B - 1)) as [bl Hbl].
    { destruct B; [congruence|]. simpl. lia. }
    assert (Hlt : tok_i bl < tok_i b2).
    { apply (ssorted_app_elem _ _ _ bl b2 Hs).
      - apply list_elem_of_lookup. eauto.
      - apply list_elem_of_In, in_concat. exists (b2 :: B2).
        split; [exact HB2|left; reflexivity]. }
    unfold run_before. rewrite run_of_text, combine_text_length by exact HoB.
    destruct B as [|c0 B]; [congruence|]. simpl tok_i.
    rewrite (chain_index _ _ _ _ HcB Hbl) in Hlt. simpl length in *. lia.
Qed.

Lemma ssorted_NoDup {A : Type} (R : A -> A -> Prop) (l : list A) :
  StronglySorted R l -> (forall x, In x l -> ~ R x x) -> List.NoDup l.
Proof.
  induction 1 as [|c l Hs IH Hall]; intros Hirr; constructor.
  - intros Hin. rewrite List.Forall_forall in Hall.
    apply (Hirr c); [left; reflexivity|]. apply Hall, Hin.
  - apply IH. intros x Hx. apply Hirr. right. exact Hx.
Qed.

(** X9.  The runs of a posted message come in document order and do not
    overlap: each run ends before any later run starts.  So no two runs
    are equal, and the keys of the text nodes rendered from the message
    are pairwise distinct. *)
Theorem runs_in_document_order (computed : string -> Style)
        (STYLE_CACHE : gmap string Style)
        (highlighting : list (Z * Z * string))
        (docContents languageName : string)
        (msg : Message) (cache' : gmap string Style) :
  Ui.updateListener computed STYLE_CACHE highlighting docContents languageName
    = Some (msg, cache') ->
  StronglySorted
    (fun r1 r2 =>
       tok_i r1 + Z.of_nat (String.length (tok_text r1)) <= tok_i r2)
    (tokens msg)
  /\ List.NoDup (map Widget.key (Widget.children (Widget.render msg))).
Proof.
  intros H. destruct (listener_message _ _ _ _ _ _ _ H)
    as (cells & Hcells & Hchain & Hone & ->).
  cbn [tokens].
  assert (Hblocks : Forall (fun B => B <> [] /\ chain B /\ Forall one_char B)
                           (blocks [] cells)).
  { apply Forall_forall. intros B HB.
    destruct (blocks_segments cells [] B) as (Hne & _ & _ & pre & post & Heq);
      [constructor | intros a b Ha; inversion Ha | exact HB |].
    simpl in Heq. split; [exact Hne|]. split.
    - rewrite Heq in Hchain. apply chain_app_r, chain_app_l in Hchain.
      exact Hchain.
    - rewrite Heq in Hone. apply Forall_app in Hone as [_ Hone].
      apply Forall_app in Hone as [Hone _]. exact Hone. }
  assert (Hsorted : StronglySorted run_before (map run_of (blocks [] cells))).
  { apply blocks_in_order; [|exact Hblocks].
    rewrite blocks_concat. simpl.
    apply ssorted_filter, chain_index_sorted, Hchain. }
  split; [exact Hsorted|].
  unfold Widget.render. cbn [Widget.children tokens].
  rewrite map_map. cbn [Widget.key]. rewrite map_id.
  apply (ssorted_NoDup _ _ Hsorted).
  intros r Hr. apply in_map_iff in Hr as (B & <- & HB).
  rewrite Forall_forall in Hblocks.
  destruct (Hblocks B ltac:(apply list_elem_of_In; exact HB)) as (Hne & _ & HoB).
  unfold run_before. rewrite run_of_text, combine_text_length by exact HoB.
  destruct B; [congruence|]. simpl length. lia.
Qed.

Lemma runs_in_document_order_witness :
  StronglySorted
    (fun r1 r2 =>
       tok_i r1 + Z.of_nat (String.length (tok_text r1)) <= tok_i r2)
    [mkToken 0 0 0 "a" (mkStyle "red" "bold");
     mkToken 2 0 1 "b" (mkStyle "red" "bold")].
Proof.
  apply (runs_in_document_order (fun _ => mkStyle "red" "bold") ∅
           [(0, 3, "comment")] ("a" +:+ LF +:+ "b") "JavaScript"
           (mkMessage "text" 1 2 ("a" +:+ LF +:+ "b")
              [mkToken 0 0 0 "a" (mkStyle "red" "bold");
               mkToken 2 0 1 "b" (mkStyle "red" "bold")]
              (Some "JavaScript"))
           {["comment" := mkStyle "red" "bold"]}).
  vm_compute. reflexivity.
Defined.

(** ** A document without highlighting *)

Lemma length_append (s1 s2 : string) :
  String.length (s1 +:+ s2) = (String.length s1 + String.length s2)%nat.
Proof.
  induction s1 as [|c s1 IH]; [reflexivity|].
  rewrite append_cons. simpl. rewrite IH. reflexivity.
Qed.

Lemma rows_line (p : string) : Spec.count_newlines p = O -> Spec.rows p = [p].
Proof.
  induction p as [|c p IH]; simpl; [reflexivity|].
  destruct (Ascii.eqb c NL); [discriminate|].
  intros H. rewrite IH by exact H. reflexivity.
Qed.

Lemma rows_append_line (p s : string) :
  Spec.count_newlines p = O ->
  Spec.rows (p +:+ String NL s) = p :: Spec.rows s.
Proof.
  induction p as [|c p IH]; intros H.
  - rewrite append_nil_l. simpl. reflexivity.
  - simpl in H. rewrite append_cons. simpl.
    destruct (Ascii.eqb c NL); [discriminate|].
    rewrite IH by exact H. reflexivity.
Qed.

Lemma count_newlines_snoc (p : string) (c : ascii) :
  Spec.count_newlines p = O -> Ascii.eqb c NL = false ->
  Spec.count_newlines (p +:+ String c "") = O.
Proof.
  induction p as [|c0 p IH]; intros H Hc.
  - rewrite append_nil_l. simpl. rewrite Hc. reflexivity.
  - simpl in H. rewrite append_cons. simpl.
    destruct (Ascii.eqb c0 NL); [discriminate|]. auto.
Qed.

Lemma cells_from_app (cellStyle : Style) (p s : string) (i x y : Z) :
  Spec.count_newlines p = O ->
  cells_from cellStyle (p +:+ s) i x y =
  cells_from cellStyle p i x y
  ++ cells_from cellStyle s (i + Z.of_nat (String.length p))
                (x + Z.of_nat (String.length p)) y.
Proof.
  revert i x. induction p as [|c p IH]; intros i x H.
  - rewrite append_nil_l. simpl. rewrite !Z.add_0_r. reflexivity.
  - simpl in H. rewrite append_cons. simpl.
    destruct (Ascii.eqb c NL); [discriminate|].
    rewrite IH by exact H. f_equal. f_equal. f_equal; lia.
Qed.

Lemma close_line (cellStyle : Style) (p : string) (i y : Z) :
  map run_of (close (cells_from cellStyle p i 0 y)) =
  if String.eqb p "" then [] else [mkToken i 0 y p cellStyle].
Proof.
  destruct p as [|c p]; [reflexivity|].
  pose proof (combine_text_cells cellStyle (String c p) i 0 y) as Ht.
  simpl in *. rewrite Ht. reflexivity.
Qed.

(** Cells of one style, read after the cells of the row's beginning [p],
    give one run per non-empty row. *)
Lemma blocks_uniform (cellStyle : Style) (s p : string) (i y : Z) :
  Spec.count_newlines p = O ->
  map run_of
      (blocks (cells_from cellStyle p i 0 y)
              (cells_from cellStyle s (i + Z.of_nat (String.length p))
                          (Z.of_nat (String.length p)) y)) =
  line_runs cellStyle (Spec.rows (p +:+ s)) i y.
Proof.
  revert p i y. induction s as [|c s IH]; intros p i y Hp.
  - rewrite append_nil_r, (rows_line p Hp). simpl.
    rewrite app_nil_r. apply close_line.
  - cbn [cells_from blocks]. unfold cell_newline at 1. cbn [tok_text].
    rewrite is_newline_char. destruct (Ascii.eqb c NL) eqn:Hc.
    + apply Ascii.eqb_eq in Hc. subst c.
      rewrite (rows_append_line p s Hp). cbn [line_runs].
      rewrite map_app, close_line. f_equal.
      specialize (IH "" (i + Z.of_nat (String.length p) + 1) (y + 1) eq_refl).
      rewrite append_nil_l in IH. simpl in IH.
      rewrite Z.add_0_r in IH. exact IH.
    + assert (Hcur : cells_from cellStyle p i 0 y
                     ++ [mkToken (i + Z.of_nat (String.length p))
                                 (Z.of_nat (String.length p)) y (String c "")
                                 cellStyle] =
                     cells_from cellStyle (p +:+ String c "") i 0 y).
      { rewrite (cells_from_app cellStyle p (String c "") i 0 y Hp).
        simpl. rewrite Hc. reflexivity. }
      assert (Hnext :
                blocks (cells_from cellStyle (p +:+ String c "") i 0 y)
                       (cells_from cellStyle s
                                   (i + Z.of_nat (String.length p) + 1)
                                   (Z.of_nat (String.length p) + 1) y) =
                match last (cells_from cellStyle p i 0 y) with
                | Some q =>
                    if Ui.style_differs (tok_style q) cellStyle
                    then cells_from cellStyle p i 0 y
                         :: blocks [mkToken (i + Z.of_nat (String.length p))
                                            (Z.of_nat (String.length p)) y
                                            (String c "") cellStyle]
                                   (cells_from cellStyle s
                                      (i + Z.of_nat (String.length p) + 1)
                                      (Z.of_nat (String.length p) + 1) y)
                    else blocks (cells_from cellStyle p i 0 y
                                 ++ [mkToken (i + Z.of_nat (String.length p))
                                             (Z.of_nat (String.length p)) y
                                             (String c "") cellStyle])
                                (cells_from cellStyle s
                                   (i + Z.of_nat (String.length p) + 1)
                                   (Z.of_nat (String.length p) + 1) y)
                | None =>
                    blocks [mkToken (i + Z.of_nat (String.length p))
                                    (Z.of_nat (String.length p)) y
                                    (String c "") cellStyle]
                           (cells_from cellStyle s
                              (i + Z.of_nat (String.length p) + 1)
                              (Z.of_nat (String.length p) + 1) y)
                end).
      { destruct (last (cells_from cellStyle p i 0 y)) as [q|] eqn:Hl.
        - assert (Hq : tok_style q = cellStyle).
          { pose proof (cells_from_default cellStyle p i 0 y) as Hall.
            rewrite Forall_forall in Hall. apply Hall.
            apply last_Some in Hl as [l' ->]. apply elem_of_app. right.
            apply list_elem_of_singleton. reflexivity. }
          rewrite Hq, (proj2 (style_differs_false cellStyle cellStyle) eq_refl).
          rewrite Hcur. reflexivity.
        - apply last_None in Hl. rewrite <- Hcur, Hl. reflexivity. }
      cbn [tok_style]. rewrite <- Hnext.
      specialize (IH (p +:+ String c "") i y
                     (count_newlines_snoc p c Hp Hc)).
      rewrite length_append, append_assoc in IH. simpl in IH.
      rewrite append_cons, append_nil_l in IH. rewrite <- IH.
      f_equal. f_equal. f_equal; lia.
Qed.

(** X10.  For a document without highlight spans the listener posts one
    run per non-empty line: the whole line, in the default style, at
    column 0 of its row and with the index of its first character; the
    width is the longest line, the height the number of lines, and the
    cache is untouched. *)
Theorem plain_document_runs (computed : string -> Style)
        (STYLE_CACHE : gmap string Style) (docContents languageName : string) :
  Ui.updateListener computed STYLE_CACHE [] docContents languageName =
  Some (mkMessage "text"
                  (Z.of_nat (Spec.max_row_length docContents))
                  (Z.of_nat (Spec.count_newlines docContents) + 1)
                  docContents
                  (line_runs Ui.DEFAULT_STYLE (Spec.rows docContents) 0 0)
                  (Some languageName),
        STYLE_CACHE).
Proof.
  unfold Ui.updateListener. cbn [Ui.color_tokens].
  rewrite groupTokens_blocks. unfold Ui.tokenize.
  rewrite grid_width_rows, grid_cells. unfold grid. rewrite grid_loop_y.
  pose proof (blocks_uniform Ui.DEFAULT_STYLE docContents "" 0 0 eq_refl) as H.
  rewrite append_nil_l in H.
  change (blocks (cells_from Ui.DEFAULT_STYLE "" 0 0 0)
                 (cells_from Ui.DEFAULT_STYLE docContents
                             (0 + Z.of_nat (String.length ""))
                             (Z.of_nat (String.length "")) 0))
    with (blocks [] (cells_from Ui.DEFAULT_STYLE docContents 0 0 0)) in H.
  rewrite H. simpl. reflexivity.
Qed.

(** ** The runs and the size of the grid *)

Lemma cells_no_newline (cellStyle : Style) (s : string) (i x y : Z) :
  Spec.count_newlines s = O ->
  Forall (fun t => cell_newline t = false) (cells_from cellStyle s i x y).
Proof.
  revert i x y. induction s as [|c s IH]; intros i x y H; simpl; [constructor|].
  simpl in H. destruct (Ascii.eqb c NL) eqn:Hc; [discriminate|].
  constructor; [|apply IH, H].
  unfold cell_newline. simpl. rewrite is_newline_char. exact Hc.
Qed.

(** A token of the grid that is not a newline fits the grid. *)
Lemma cell_fits (cellStyle : Style) (s : string) (c : Token) :
  c ∈ cells_from cellStyle s 0 0 0 -> cell_newline c = false ->
  fits (g_width (grid cellStyle s)) (grid_height cellStyle s) c.
Proof.
  intros Hc Hn. rewrite grid_width_reach. unfold grid_height, grid.
  rewrite grid_loop_y. simpl g_y.
  destruct (cells_from_bounds cellStyle s 0 0 0 c ltac:(lia) Hc)
    as (H1 & H2 & H3). specialize (H2 Hn).
  pose proof (cells_from_one_char cellStyle s 0 0 0 ltac:(lia)) as Hone.
  rewrite Forall_forall in Hone. destruct (Hone c Hc) as [_ [ch Hch]].
  unfold fits. rewrite Hch. simpl. lia.
Qed.

(** A run flushed from coloured cells fits the grid of the document. *)
Lemma run_fits (docContents : string) (cells B : list Token) :
  map cell cells = map cell (g_tokens (Ui.tokenize docContents)) ->
  chain cells -> Forall one_char cells -> B ∈ blocks [] cells ->
  fits (g_width (Ui.tokenize docContents))
       (g_y (Ui.tokenize docContents) + 1) (run_of B).
Proof.
  intros Hcells Hchain Hone HB.
  destruct (block_in_cells cells Hchain B HB) as (HcB & Hnl & _ & Hne & Hsub).
  destruct (lookup_lt_is_Some_2 B (length B - 1)) as [bl Hbl].
  { destruct B; [congruence|]. simpl. lia. }
  destruct (block_positions B _ bl HcB Hnl Hbl) as (Hy & Hx & _).
  assert (HblB : bl ∈ B) by (apply list_elem_of_lookup; eauto).
  assert (Hbln : cell_newline bl = false).
  { unfold no_newline in Hnl. rewrite Forall_forall in Hnl. auto. }
  destruct (same_cells_elem _ _ bl Hcells (Hsub bl HblB)) as (c0 & Hc0 & Hcell).
  apply cell_fields in Hcell as (_ & Hx0 & Hy0 & Ht0).
  unfold Ui.tokenize in Hc0. rewrite grid_cells in Hc0.
  assert (Hn0 : cell_newline c0 = false).
  { unfold cell_newline in *. rewrite Ht0. exact Hbln. }
  destruct (cell_fits Ui.DEFAULT_STYLE docContents c0 Hc0 Hn0) as (F1 & F2 & F3).
  pose proof (cells_from_one_char Ui.DEFAULT_STYLE docContents 0 0 0 ltac:(lia))
    as Hone0.
  rewrite Forall_forall in Hone0. destruct (Hone0 c0 Hc0) as [_ [ch Hch]].
  rewrite Hch in F2. simpl in F2.
  unfold fits. rewrite (run_of_text_length cells B Hone HB).
  unfold Ui.tokenize. unfold grid_height in F3.
  assert (Hlen : (1 <= length B)%nat) by (destruct B; [congruence|simpl; lia]).
  assert (Hfirst : 0 <= tok_x (run_of B)).
  { destruct B as [|b0 B]; [congruence|]. simpl.
    rewrite Forall_forall in Hone.
    apply (Hone b0). apply Hsub. apply elem_of_cons. auto. }
  repeat split; lia.
Qed.

Lemma listener_runs_fit (computed : string -> Style)
      (STYLE_CACHE : gmap string Style) (highlighting : list (Z * Z * string))
      (docContents languageName : string) (msg : Message)
      (cache' : gmap string Style) :
  Ui.updateListener computed STYLE_CACHE highlighting docContents languageName
    = Some (msg, cache') ->
  Forall (fits (width msg) (height msg)) (tokens msg).
Proof.
  intros H. destruct (listener_message _ _ _ _ _ _ _ H)
    as (cells & Hcells & Hchain & Hone & ->).
  cbn [width height tokens]. apply List.Forall_forall. intros r Hr.
  apply in_map_iff in Hr as (B & <- & HB). apply list_elem_of_In in HB.
  apply (run_fits docContents cells B); assumption.
Qed.

Lemma placeholder_tokens_fit (placeholderText : string) (lang : option string) :
  Spec.count_newlines placeholderText = O ->
  Forall (fits (width (Widget.placeholderTokens placeholderText lang))
               (height (Widget.placeholderTokens placeholderText lang)))
         (tokens (Widget.placeholderTokens placeholderText lang)).
Proof.
  intros Hnl. unfold Widget.placeholderTokens.
  cbn [width height tokens]. rewrite grid_cells.
  apply Forall_forall. intros c Hc.
  apply (cell_fits Widget.placeholderStyle placeholderText c Hc).
  pose proof (cells_no_newline Widget.placeholderStyle placeholderText 0 0 0
                Hnl) as Hall.
  rewrite Forall_forall in Hall. auto.
Qed.

(** X11.  Every run of a posted message lies inside the grid the message
    announces: it starts at a column that is not negative, ends at or
    before [width], and sits on a row below [height].  The same holds
    for the tokens of a placeholder made from a text without newline,
    such as the constant one. *)
Theorem runs_fit_the_grid :
  (forall (computed : string -> Style) (STYLE_CACHE : gmap string Style)
          (highlighting : list (Z * Z * string))
          (docContents languageName : string)
          (msg : Message) (cache' : gmap string Style),
      Ui.updateListener computed STYLE_CACHE highlighting docContents
                        languageName = Some (msg, cache') ->
      Forall (fits (width msg) (height msg)) (tokens msg))
  /\ (forall (placeholderText : string) (lang : option string),
        Spec.count_newlines placeholderText = O ->
        Forall (fits (width (Widget.placeholderTokens placeholderText lang))
                     (height (Widget.placeholderTokens placeholderText lang)))
               (tokens (Widget.placeholderTokens placeholderText lang))).
Proof.
  split.
  - apply listener_runs_fit.
  - apply placeholder_tokens_fit.
Qed.

Lemma runs_fit_the_grid_witness :
  Forall (fits 12 1)
         (tokens (Widget.placeholderTokens Widget.PLACEHOLDER_TEXT None))
  /\ Forall (fits 1 2) [mkToken 0 0 0 "a" (mkStyle "red" "bold");
                        mkToken 2 0 1 "b" (mkStyle "red" "bold")].
Proof.
  split.
  - apply (proj2 runs_fit_the_grid Widget.PLACEHOLDER_TEXT None). reflexivity.
  - apply (proj1 runs_fit_the_grid (fun _ => mkStyle "red" "bold") ∅
             [(0, 3, "comment")] ("a" +:+ LF +:+ "b") "JavaScript"
             (mkMessage "text" 1 2 ("a" +:+ LF +:+ "b")
                [mkToken 0 0 0 "a" (mkStyle "red" "bold");
                 mkToken 2 0 1 "b" (mkStyle "red" "bold")]
                (Some "JavaScript"))
             {["comment" := mkStyle "red" "bold"]}).
    vm_compute. reflexivity.
Defined.

Lemma fits_pixels (w h : Z) (r : Token) :
  fits w h r ->
  0 <= tok_x r * Widget.LETTER_WIDTH
  /\ tok_x r * Widget.LETTER_WIDTH
     + Widget.LETTER_WIDTH * Z.of_nat (String.length (tok_text r))
     <= w * Widget.LETTER_WIDTH
  /\ 0 <= tok_y r * Widget.LETTER_HEIGHT
  /\ tok_y r * Widget.LETTER_HEIGHT + Widget.LETTER_HEIGHT
     <= h * Widget.LETTER_HEIGHT.
Proof.
  unfold fits, Widget.LETTER_WIDTH, Widget.LETTER_HEIGHT. lia.
Qed.

(** X12.  Whatever message the listener posts and whatever the widget
    held before, every text node the widget then renders lies inside
    the frame it renders: with [LETTER_WIDTH] per character and
    [LETTER_HEIGHT] per row, the node starts at or after 0 and ends at
    or before the frame's width and height.  This covers the empty
    document, for which the placeholder is rendered. *)
Theorem rendered_nodes_fit_the_frame (computed : string -> Style)
        (STYLE_CACHE : gmap string Style)
        (highlighting : list (Z * Z * string))
        (docContents languageName : string)
        (msg state : Message) (cache' : gmap string Style)
        (node : Widget.TextNode) :
  Ui.updateListener computed STYLE_CACHE highlighting docContents languageName
    = Some (msg, cache') ->
  In node (Widget.children (Widget.render (Widget.onmessage state msg))) ->
  0 <= Widget.node_x node
  /\ Widget.node_x node
     + Widget.LETTER_WIDTH * Z.of_nat (String.length (Widget.characters node))
     <= Widget.frame_width (Widget.render (Widget.onmessage state msg))
  /\ 0 <= Widget.node_y node
  /\ Widget.node_y node + Widget.LETTER_HEIGHT
     <= Widget.frame_height (Widget.render (Widget.onmessage state msg)).
Proof.
  intros H Hnode.
  assert (Hfit : Forall (fits (width (Widget.onmessage state msg))
                              (height (Widget.onmessage state msg)))
                        (tokens (Widget.onmessage state msg))).
  { pose proof (listener_runs_fit _ _ _ _ _ _ _ H) as Hfit.
    pose proof (listener_message _ _ _ _ _ _ _ H) as (cells & _ & _ & _ & Hm).
    unfold Widget.onmessage.
    assert (Htype : msg_type msg = "text") by (rewrite Hm; reflexivity).
    rewrite Htype. change (String.eqb "text" "text") with true. cbv iota.
    destruct (String.eqb (text msg) ""); [|exact Hfit].
    apply placeholder_tokens_fit. reflexivity. }
  unfold Widget.render in *. cbn [Widget.children Widget.frame_width
                                   Widget.frame_height] in *.
  apply in_map_iff in Hnode as (r & <- & Hr).
  cbn [Widget.node_x Widget.node_y Widget.characters].
  rewrite List.Forall_forall in Hfit.
  apply (fits_pixels _ _ r (Hfit r Hr)).
Qed.

Lemma rendered_nodes_fit_the_frame_witness :
  0 <= 1 * Widget.LETTER_WIDTH
  /\ 1 * Widget.LETTER_WIDTH
     + Widget.LETTER_WIDTH * Z.of_nat (String.length "b")
     <= 2 * Widget.LETTER_WIDTH
  /\ 0 <= 0 * Widget.LETTER_HEIGHT
  /\ 0 * Widget.LETTER_HEIGHT + Widget.LETTER_HEIGHT
     <= 1 * Widget.LETTER_HEIGHT.
Proof.
  apply (rendered_nodes_fit_the_frame
           (fun _ => mkStyle "rgb(255, 0, 0)" "bold") ∅ [(0, 1, "kw")]
           "ab" "JavaScript"
           (mkMessage "text" 2 1 "ab"
              [mkToken 0 0 0 "a" (mkStyle "rgb(255, 0, 0)" "bold");
               mkToken 1 1 0 "b" Ui.DEFAULT_STYLE]
              (Some "JavaScript"))
           (Widget.placeholderTokens Widget.PLACEHOLDER_TEXT None)
           {["kw" := mkStyle "rgb(255, 0, 0)" "bold"]}
           (Widget.mkText Widget.FONT_FAMILY Widget.FONT_SIZE
                          (1 * Widget.LETTER_WIDTH) (0 * Widget.LETTER_HEIGHT)
                          (Widget.getFill "")
                          (Widget.ensureFontWeight "")
                          (mkToken 1 1 0 "b" Ui.DEFAULT_STYLE) "b")).
  - vm_compute. reflexivity.
  - right. left. reflexivity.
Defined.

(** ** The state of the widget over a sequence of messages *)

Lemma onmessage_text (state msg : Message) :
  text state <> "" -> text (Widget.onmessage state msg) <> "".
Proof.
  intros Hs. unfold Widget.onmessage.
  destruct (String.eqb (msg_type msg) "text"); [|exact Hs].
  destruct (String.eqb_spec (text msg) ""); [discriminate|assumption].
Qed.

(** X13.  The widget never stores a snapshot with an empty text: from
    the initial placeholder, or from any state whose text is not empty,
    and after any sequence of messages of any content, the stored text
    is not the empty string. *)
Theorem stored_text_never_empty (msgs : list Message) :
  text (fold_left Widget.onmessage msgs
                  (Widget.placeholderTokens Widget.PLACEHOLDER_TEXT None))
    <> ""
  /\ forall state, text state <> "" ->
                   text (fold_left Widget.onmessage msgs state) <> "".
Proof.
  assert (H : forall state, text state <> "" ->
                            text (fold_left Widget.onmessage msgs state) <> "").
  { induction msgs as [|m msgs IH]; intros state Hs; [exact Hs|].
    simpl. apply IH, onmessage_text, Hs. }
  split; [|exact H]. apply H. discriminate.
Qed.

Lemma stored_text_never_empty_witness :
  text (fold_left Widget.onmessage
                  [mkMessage "text" 0 1 "" [] (Some "Rust");
                   mkMessage "ping" 0 0 "" [] None]
                  (mkMessage "text" 1 1 "x" [] None)) <> "".
Proof.
  apply (proj2 (stored_text_never_empty
                  [mkMessage "text" 0 1 "" [] (Some "Rust");
                   mkMessage "ping" 0 0 "" [] None])
               (mkMessage "text" 1 1 "x" [] None)).
  discriminate.
Defined.

(** ** The language registry *)

Lemma findLanguage_name (languageName : string) (o : Ui.ILanguage) :
  Ui.findLanguage languageName = Some o ->
  Ui.name o = languageName /\ In o Ui.LANGUAGES.
Proof.
  unfold Ui.findLanguage. intros H.
  assert (Hin : In o (List.filter
                        (fun x => String.eqb (Ui.name x) languageName)
                        Ui.LANGUAGES)).
  { destruct (List.filter _ Ui.LANGUAGES); [discriminate H|].
    injection H as <-. left. reflexivity. }
  apply filter_In in Hin as [Hin Heq]. apply String.eqb_eq in Heq. auto.
Qed.

Lemma findLanguage_Some (languageName : string) :
  In languageName Ui.dropdownOptions -> is_Some (Ui.findLanguage languageName).
Proof.
  unfold Ui.dropdownOptions. intros H.
  apply in_map_iff in H as (o & Ho & Hin). unfold Ui.findLanguage.
  assert (Hf : In o (List.filter
                       (fun x => String.eqb (Ui.name x) languageName)
                       Ui.LANGUAGES)).
  { apply filter_In. split; [exact Hin|]. apply String.eqb_eq, Ho. }
  destruct (List.filter _ Ui.LANGUAGES); [contradiction|]. eexists. reflexivity.
Qed.

(** X14.  Looking a language up by name succeeds exactly for the names
    offered in the dropdown, and then hands back that very name with the
    language support registered under it; any other name makes the
    lookup fail.  No name is registered twice. *)
Theorem language_lookup (languageName : string) :
  (is_Some (Ui.selectLanguage languageName)
   <-> In languageName Ui.dropdownOptions)
  /\ (forall support name',
        Ui.selectLanguage languageName = Some (support, name') ->
        name' = languageName
        /\ In (Ui.mkLanguage languageName support) Ui.LANGUAGES)
  /\ List.NoDup Ui.dropdownOptions.
Proof.
  split; [|split].
  - unfold Ui.selectLanguage. split.
    + destruct (Ui.findLanguage languageName) as [o|] eqn:Ho;
        [|intros [? ?]; discriminate].
      intros _. apply findLanguage_name in Ho as [<- Hin].
      unfold Ui.dropdownOptions. apply in_map, Hin.
    + intros H. destruct (findLanguage_Some languageName H) as [o ->].
      eexists. reflexivity.
  - intros support name'. unfold Ui.selectLanguage.
    destruct (Ui.findLanguage languageName) as [o|] eqn:Ho; [|discriminate].
    intros [= <- <-]. apply findLanguage_name in Ho as [Hn Hin].
    split; [exact Hn|]. rewrite <- Hn. destruct o. exact Hin.
  - unfold Ui.dropdownOptions. vm_compute.
    repeat (constructor; [simpl; intuition discriminate|]). constructor.
Qed.

Lemma language_lookup_witness :
  "C#" = "C#" /\ In (Ui.mkLanguage "C#" Ui.csharp) Ui.LANGUAGES.
Proof.
  apply (proj1 (proj2 (language_lookup "C#")) Ui.csharp "C#"). reflexivity.
Defined.

(** X15.  The widget always holds a language the editor can start with:
    when every message it receives was posted by a listener whose
    language name came out of the registry lookup, the stored snapshot's
    language is defined and the lookup of it succeeds, from the initial
    placeholder on. *)
Theorem stored_language_is_registered (computed : string -> Style)
        (msgs : list Message) :
  Forall (fun m =>
            exists cache highlighting docContents chosen support languageName
                   cache',
              Ui.selectLanguage chosen = Some (support, languageName)
              /\ Ui.updateListener computed cache highlighting docContents
                                   languageName = Some (m, cache'))
         msgs ->
  exists l,
    language (fold_left Widget.onmessage msgs
                (Widget.placeholderTokens Widget.PLACEHOLDER_TEXT None))
      = Some l
    /\ is_Some (Ui.selectLanguage l).
Proof.
  assert (Hgen : forall state,
             (exists l, language state = Some l
                        /\ is_Some (Ui.selectLanguage l)) ->
             Forall (fun m =>
                       exists cache highlighting docContents chosen support
                              languageName cache',
                         Ui.selectLanguage chosen = Some (support, languageName)
                         /\ Ui.updateListener computed cache highlighting
                              docContents languageName = Some (m, cache'))
                    msgs ->
             exists l, language (fold_left Widget.onmessage msgs state) = Some l
                       /\ is_Some (Ui.selectLanguage l)).
  { induction msgs as [|m msgs IH]; intros state Hs Hall; [exact Hs|].
    apply Forall_cons in Hall as [Hm Hall]. simpl. apply IH; [|exact Hall].
    destruct Hm as (cache & hl & doc & chosen & support & languageName
                    & cache' & Hsel & Hup).
    assert (Hreg : is_Some (Ui.selectLanguage languageName)).
    { unfold Ui.selectLanguage in *.
      destruct (Ui.findLanguage chosen) as [o|] eqn:Ho; [|discriminate].
      injection Hsel as _ <-.
      pose proof (findLanguage_name _ _ Ho) as [Hn Hin].
      destruct (findLanguage_Some (Ui.name o)) as [o' ->].
      - unfold Ui.dropdownOptions. apply in_map, Hin.
      - eexists. reflexivity. }
    destruct (listener_message _ _ _ _ _ _ _ Hup) as (cells & _ & _ & _ & ->).
    unfold Widget.onmessage. cbn [msg_type text language].
    change (String.eqb "text" "text") with true. cbv iota.
    exists languageName. split; [|exact Hreg].
    destruct (String.eqb doc ""); reflexivity. }
  apply Hgen. exists "JavaScript". split; [reflexivity|].
  vm_compute. eexists. reflexivity.
Qed.

Lemma stored_language_is_registered_witness :
  exists l,
    language (fold_left Widget.onmessage
                [mkMessage "text" 0 1 "" [] (Some "Rust")]
                (Widget.placeholderTokens Widget.PLACEHOLDER_TEXT None))
      = Some l
    /\ is_Some (Ui.selectLanguage l).
Proof.
  apply (stored_language_is_registered (fun _ => Ui.DEFAULT_STYLE)
           [mkMessage "text" 0 1 "" [] (Some "Rust")]).
  constructor; [|constructor].
  exists ∅, [], "", "Rust", Ui.rust, "Rust", ∅.
  split; vm_compute; reflexivity.
Defined.

(** ** What the renderer hands to the canvas *)

(** X16.  [ensureFontWeight] only ever returns a weight the canvas
    accepts: one of the numbers 100, 200, ..., 900 or one of the nine
    keywords, whatever string it is given. *)
Theorem ensureFontWeight_range (w : string) :
  (exists n, Widget.ensureFontWeight w = Widget.WeightNumber n
             /\ In n [100; 200; 300; 400; 500; 600; 700; 800; 900])
  \/ (exists k, Widget.ensureFontWeight w = Widget.WeightName k
                /\ In k ["thin"; "extra-light"; "light"; "normal"; "medium";
                         "semi-bold"; "bold"; "extra-bold"; "black"]).
Proof.
  destruct (Spec.all_spaces w) eqn:Hsp.
  - right. exists "normal". unfold Widget.ensureFontWeight.
    rewrite trim_empty by exact Hsp. split; [reflexivity|].
    simpl. auto.
  - rewrite ensureFontWeight_unfold by exact Hsp.
    destruct (Widget.is_hundreds (Js.parseInt w)) eqn:Hh.
    + left. destruct (Js.parseInt w) as [n|]; [|discriminate Hh].
      exists n. split; [reflexivity|].
      apply is_hundreds_iff in Hh as [Hmod Hrange].
      pose proof (Z.div_mod n 100 ltac:(lia)) as Hdm. rewrite Hmod in Hdm.
      assert (Hq : 1 <= n / 100 <= 9) by lia.
      assert (Hcases : n / 100 = 1 \/ n / 100 = 2 \/ n / 100 = 3
                       \/ n / 100 = 4 \/ n / 100 = 5 \/ n / 100 = 6
                       \/ n / 100 = 7 \/ n / 100 = 8 \/ n / 100 = 9) by lia.
      simpl. lia.
    + right. destruct (bool_decide _) eqn:Hk.
      * exists (Js.trim (Js.toLowerCase w)). split; [reflexivity|].
        apply bool_decide_eq_true_1 in Hk. apply list_elem_of_In. exact Hk.
      * exists "normal". split; [reflexivity|]. simpl. auto.
Qed.

Lemma decimal_nonneg_acc (s : string) (acc : Z) :
  Spec.all_digits s = true -> 0 <= acc ->
  0 <= fold_left (fun acc c => 10 * acc + (Js.code c - 48))
                 (list_ascii_of_string s) acc.
Proof.
  revert acc. induction s as [|c s IH]; intros acc H Hacc; simpl; [exact Hacc|].
  simpl in H. apply andb_true_iff in H as [Hc Hs].
  apply IH; [exact Hs|].
  unfold Js.is_digit in Hc. apply andb_true_iff in Hc as [H1 _].
  apply Z.leb_le in H1. lia.
Qed.

Lemma numbers_nonneg (style : string) :
  Forall (fun n => exists k, n = Some k /\ 0 <= k) (Widget.numbers style).
Proof.
  unfold Widget.numbers. apply List.Forall_forall. intros n Hn.
  apply in_map_iff in Hn as [x [Hx Hin]].
  apply filter_In in Hin as [Hin Hlen].
  pose proof (split_non_digits_digits style "" false eq_refl) as Hall.
  rewrite List.Forall_forall in Hall. specialize (Hall x Hin).
  exists (Spec.decimal x). split.
  - rewrite <- Hx. apply parseInt_digits; [|exact Hall].
    intros ->. discriminate Hlen.
  - apply decimal_nonneg_acc; [exact Hall|lia].
Qed.

Lemma over255_unit (k : Z) :
  0 <= k -> (unit_channel (Widget.over255 (Some k)) <-> k <= 255).
Proof.
  intros Hk. unfold unit_channel, Widget.over255. split.
  - intros (q & [= <-] & _ & Hle). unfold Qle in Hle. simpl in Hle. lia.
  - intros Hle. exists (k # 255)%Q. split; [reflexivity|].
    unfold Qle. simpl. lia.
Qed.

(** X17.  [getFill] always returns four numbers, none of them [NaN] and
    none negative, for every string.  It does not clamp: for a string
    that starts with "rgb" and has at least three digit runs, a colour
    channel lies in [0, 1] exactly when its digit run is at most 255. *)
Theorem getFill_channels (style : string) :
  (exists r g b a : Q,
     Widget.getFill style =
       Widget.mkColor (Some r) (Some g) (Some b) (Some a)
     /\ (0 <= r)%Q /\ (0 <= g)%Q /\ (0 <= b)%Q /\ (0 <= a)%Q)
  /\ (forall k0 k1 k2 more,
        Js.startsWith style "rgb" = true ->
        Widget.numbers style = Some k0 :: Some k1 :: Some k2 :: more ->
        (unit_channel (Widget.c_r (Widget.getFill style)) <-> k0 <= 255)
        /\ (unit_channel (Widget.c_g (Widget.getFill style)) <-> k1 <= 255)
        /\ (unit_channel (Widget.c_b (Widget.getFill style)) <-> k2 <= 255)).
Proof.
  pose proof (numbers_nonneg style) as Hnn.
  split.
  - unfold Widget.getFill, Widget.getFill_try.
    destruct (Js.startsWith style "rgb");
      [|exists 0%Q, 0%Q, 0%Q, 1%Q; repeat split; discriminate].
    destruct (Widget.numbers style) as [|n0 [|n1 [|n2 more]]];
      try (exists 0%Q, 0%Q, 0%Q, 1%Q; repeat split; discriminate).
    apply Forall_cons in Hnn as [(k0 & -> & H0) Hnn].
    apply Forall_cons in Hnn as [(k1 & -> & H1) Hnn].
    apply Forall_cons in Hnn as [(k2 & -> & H2) Hnn].
    destruct more as [|n3 more].
    + exists (k0 # 255)%Q, (k1 # 255)%Q, (k2 # 255)%Q, 1%Q.
      split; [reflexivity|]. unfold Qle. simpl. lia.
    + apply Forall_cons in Hnn as [(k3 & -> & H3) _].
      exists (k0 # 255)%Q, (k1 # 255)%Q, (k2 # 255)%Q, (inject_Z k3).
      split; [reflexivity|]. unfold Qle. simpl. lia.
  - intros k0 k1 k2 more Hrgb Hnum. rewrite Hnum in Hnn.
    apply Forall_cons in Hnn as [(? & [= <-] & H0) Hnn].
    apply Forall_cons in Hnn as [(? & [= <-] & H1) Hnn].
    apply Forall_cons in Hnn as [(? & [= <-] & H2) _].
    unfold Widget.getFill, Widget.getFill_try. rewrite Hrgb, Hnum.
    cbn [Widget.c_r Widget.c_g Widget.c_b].
    split; [|split]; apply over255_unit; assumption.
Qed.

Lemma getFill_channels_witness :
  (unit_channel (Widget.c_r (Widget.getFill "rgb(300, 0, 255)")) <-> 300 <= 255)
  /\ (unit_channel (Widget.c_g (Widget.getFill "rgb(300, 0, 255)")) <-> 0 <= 255)
  /\ (unit_channel (Widget.c_b (Widget.getFill "rgb(300, 0, 255)"))
      <-> 255 <= 255).
Proof.
  apply (proj2 (getFill_channels "rgb(300, 0, 255)") 300 0 255 []);
    reflexivity.
Defined.




(** ** Decimal digits: printing and reading back *)

Lemma uint_all_digits (d : Decimal.uint) :
  Spec.all_digits (NilEmpty.string_of_uint d) = true.
Proof. induction d; simpl; auto. Qed.

Lemma digits_all_digits (n : Z) : Spec.all_digits (Js.digits n) = true.
Proof.
  unfold Js.digits, NilZero.string_of_uint.
  destruct (Nat.to_uint (Z.to_nat n)) eqn:H; try reflexivity;
    rewrite <- H; apply uint_all_digits.
Qed.

Lemma digits_nonempty (n : Z) : Js.digits n <> "".
Proof.
  unfold Js.digits, NilZero.string_of_uint.
  destruct (Nat.to_uint (Z.to_nat n)); discriminate.
Qed.

Lemma decimal_uint (d : Decimal.uint) (acc : nat) :
  fold_left (fun acc c => 10 * acc + (Js.code c - 48))
            (list_ascii_of_string (NilEmpty.string_of_uint d)) (Z.of_nat acc)
  = Z.of_nat (Nat.of_uint_acc d acc).
Proof.
  revert acc.
  induction d as [|d IH|d IH|d IH|d IH|d IH|d IH|d IH|d IH|d IH|d IH];
    intros acc; [reflexivity|..];
    cbn [NilEmpty.string_of_uint list_ascii_of_string fold_left Nat.of_uint_acc];
    rewrite Nat.tail_mul_spec, <- IH; f_equal;
    match goal with
    | |- context [Js.code ?c] =>
        let v := eval vm_compute in (Js.code c) in change (Js.code c) with v
    end; lia.
Qed.

Lemma decimal_digits (n : Z) : 0 <= n -> Spec.decimal (Js.digits n) = n.
Proof.
  intros Hn. unfold Spec.decimal, Js.digits, NilZero.string_of_uint.
  pose proof (DecimalNat.Unsigned.of_to (Z.to_nat n)) as Hof.
  unfold Nat.of_uint in Hof.
  destruct (Nat.to_uint (Z.to_nat n)) eqn:H.
  - simpl in Hof. simpl. change (Js.code "0") with 48. lia.
  - change 0 with (Z.of_nat 0). rewrite decimal_uint, Hof. lia.
  - change 0 with (Z.of_nat 0). rewrite decimal_uint, Hof. lia.
  - change 0 with (Z.of_nat 0). rewrite decimal_uint, Hof. lia.
  - change 0 with (Z.of_nat 0). rewrite decimal_uint, Hof. lia.
  - change 0 with (Z.of_nat 0). rewrite decimal_uint, Hof. lia.
  - change 0 with (Z.of_nat 0). rewrite decimal_uint, Hof. lia.
  - change 0 with (Z.of_nat 0). rewrite decimal_uint, Hof. lia.
  - change 0 with (Z.of_nat 0). rewrite decimal_uint, Hof. lia.
  - change 0 with (Z.of_nat 0). rewrite decimal_uint, Hof. lia.
  - change 0 with (Z.of_nat 0). rewrite decimal_uint, Hof. lia.
Qed.

(** Reading back the digits of a number that is not negative. *)
Lemma parseInt_digits_of (n : Z) : 0 <= n -> Js.parseInt (Js.digits n) = Some n.
Proof.
  intros Hn. rewrite parseInt_digits.
  - rewrite decimal_digits by exact Hn. reflexivity.
  - apply digits_nonempty.
  - apply digits_all_digits.
Qed.

(** ** Colours as the browser writes them *)












(** ** The property menu *)

Lemma parseInt_numberToString (n : Z) :
  0 <= n -> Js.parseInt (Js.numberToString (Some n)) = Some n.
Proof.
  intros Hn. unfold Js.numberToString.
  destruct (Z.ltb_spec n 0); [lia|]. apply parseInt_digits_of, Hn.
Qed.

(** X20.  The property menu shows what was chosen: for every dropdown
    of the menu and every option it offers, after the callback has
    handled the choice of that option the dropdown shows this option as
    selected, and the other two dropdowns show what they showed
    before. *)
Theorem property_menu_round_trip (st : Widget2.Settings)
        (item : Widget2.MenuItem) (option : string) :
  In item (Widget2.propertyMenu st) ->
  In option (Widget2.options item) ->
  let st' := Widget2.onPropertyChange st (Widget2.propertyName item) option in
  (exists item', In item' (Widget2.propertyMenu st')
                 /\ Widget2.propertyName item' = Widget2.propertyName item
                 /\ Widget2.selectedOption item' = option
                 /\ Widget2.options item' = Widget2.options item)
  /\ (forall other, In other (Widget2.propertyMenu st) ->
                    Widget2.propertyName other <> Widget2.propertyName item ->
                    In other (Widget2.propertyMenu st')).
Proof.
  intros Hitem Hopt. destruct st as [size mode frame].
  unfold Widget2.propertyMenu in Hitem.
  cbn [Widget2.FONT_SIZE Widget2.colorMode Widget2.includeFrame] in Hitem.
  destruct Hitem as [<-|[<-|[<-|[]]]];
    cbn [Widget2.options Widget2.propertyName] in *.
  - (* includeFrame *)
    destruct Hopt as [<-|[<-|[]]]; (split;
      [eexists; split; [left; reflexivity|repeat split]
      |intros other [<-|[<-|[<-|[]]]] Hne; try congruence;
       cbn; auto]).
  - (* colorMode *)
    destruct Hopt as [<-|[<-|[]]]; (split;
      [eexists; split; [right; left; reflexivity|repeat split]
      |intros other [<-|[<-|[<-|[]]]] Hne; try congruence;
       cbn; auto]).
  - (* fontSize *)
    apply in_map_iff in Hopt as (n & <- & Hn).
    assert (H0 : 0 <= n).
    { unfold Widget2.SIZES in Hn. simpl in Hn.
      repeat (destruct Hn as [<-|Hn]; [lia|]). contradiction. }
    unfold Widget2.onPropertyChange.
    change (String.eqb "fontSize" "includeFrame") with false.
    change (String.eqb "fontSize" "colorMode") with false.
    change (String.eqb "fontSize" "fontSize") with true. cbv iota zeta.
    rewrite (parseInt_numberToString n H0). split.
    + eexists. split; [right; right; left; reflexivity|]. repeat split.
    + intros other [<-|[<-|[<-|[]]]] Hne; try congruence; cbn; auto.
Qed.

Lemma property_menu_round_trip_witness :
  exists item',
    In item' (Widget2.propertyMenu
                (Widget2.onPropertyChange Widget2.initialSettings
                                          "fontSize" "48"))
    /\ Widget2.propertyName item' = "fontSize"
    /\ Widget2.selectedOption item' = "48"
    /\ Widget2.options item' =
         map (fun size => Js.numberToString (Some size)) Widget2.SIZES.
Proof.
  apply (proj1 (property_menu_round_trip Widget2.initialSettings
                  (Widget2.mkItem "fontSize" "24"
                     (map (fun size => Js.numberToString (Some size))
                          Widget2.SIZES))
                  "48"
                  ltac:(right; right; left; reflexivity)
                  ltac:(vm_compute; tauto))).
Defined.

(** ** When the frame has no width *)

Lemma reach_zero_iff (s : string) :
  reach 0 s = 0 <-> without_newlines s = "".
Proof.
  induction s as [|c s IH]; simpl; [tauto|].
  destruct (Ascii.eqb c NL).
  - pose proof (reach_ge 0 s). rewrite <- IH. lia.
  - pose proof (reach_ge (0 + 1) s). split; [lia|discriminate].
Qed.

(** X21.  The placeholder only stands in for the empty document: after
    the widget has applied a message of the listener, the frame it
    renders has width 0 exactly when the document is not empty and
    consists of newline characters only; its height is never 0. *)
Theorem frame_without_width (computed : string -> Style)
        (STYLE_CACHE : gmap string Style)
        (highlighting : list (Z * Z * string))
        (docContents languageName : string)
        (msg state : Message) (cache' : gmap string Style) :
  Ui.updateListener computed STYLE_CACHE highlighting docContents languageName
    = Some (msg, cache') ->
  (Widget.frame_width (Widget.render (Widget.onmessage state msg)) = 0
   <-> docContents <> "" /\ without_newlines docContents = "")
  /\ 0 < Widget.frame_height (Widget.render (Widget.onmessage state msg)).
Proof.
  intros H. destruct (listener_message _ _ _ _ _ _ _ H)
    as (cells & _ & _ & _ & ->).
  unfold Widget.onmessage. cbn [msg_type text].
  change (String.eqb "text" "text") with true. cbv iota.
  destruct (String.eqb_spec docContents "") as [->|Hne].
  - split; [|vm_compute; reflexivity].
    split; [vm_compute; discriminate|intros [Hc _]; congruence].
  - unfold Widget.render. cbn [Widget.frame_width Widget.frame_height
                               width height].
    unfold Ui.tokenize, Widget.LETTER_WIDTH, Widget.LETTER_HEIGHT.
    rewrite grid_width_reach. unfold grid. rewrite grid_loop_y. simpl g_y.
    rewrite <- reach_zero_iff. pose proof (reach_ge 0 docContents).
    split; [|lia]. split; [intros; split; [exact Hne|lia]|intros [_ Hr]; lia].
Qed.

Lemma frame_without_width_witness :
  Widget.frame_width
    (Widget.render
       (Widget.onmessage (Widget.placeholderTokens Widget.PLACEHOLDER_TEXT None)
                         (mkMessage "text" 0 3 (LF +:+ LF) []
                                    (Some "JavaScript")))) = 0
  <-> LF +:+ LF <> "" /\ without_newlines (LF +:+ LF) = "".
Proof.
  apply (frame_without_width (fun _ => Ui.DEFAULT_STYLE) ∅ [] (LF +:+ LF)
           "JavaScript"
           (mkMessage "text" 0 3 (LF +:+ LF) [] (Some "JavaScript"))
           (Widget.placeholderTokens Widget.PLACEHOLDER_TEXT None) ∅).
  vm_compute. reflexivity.
Defined.

Lemma listener_posts_iff_witness :
  is_Some (Ui.updateListener (fun _ => Ui.DEFAULT_STYLE) ∅
                             [(7, 3, "kw"); (0, 2, "str")] "ab" "JavaScript")
  /\ ~ is_Some (Ui.updateListener (fun _ => Ui.DEFAULT_STYLE) ∅
                                  [(1, 3, "kw")] "ab" "JavaScript").
Proof.
  split.
  - apply (proj2 (listener_posts_iff (fun _ => Ui.DEFAULT_STYLE) ∅
                    [(7, 3, "kw"); (0, 2, "str")] "ab" "JavaScript")).
    repeat constructor; simpl in *; lia.
  - intros H.
    apply (proj1 (listener_posts_iff (fun _ => Ui.DEFAULT_STYLE) ∅
                    [(1, 3, "kw")] "ab" "JavaScript")) in H.
    inversion H as [|? ? Hok _]; subst. simpl in Hok. lia.
Defined.
